(** * cpptree: the validated preprocessor-directive tree

    A shallow embedding of [src/cpptree/models.py] (the pydantic models and
    their [model_validator(mode="after")] checks) and of
    [src/cpptree/core/tostring.py], followed by the properties of the
    specification that concern them.

    Conventions.
    - A Python [str] is a sequence of Unicode code points: [str := list N].
      Literals are written [U "..."], which maps every character of a Rocq
      string to its code.
    - [raise ValueError(...)] is modelled by the error monad [result]; every
      raise site of models.py has its own constructor of [error].
    - A validator method is a function from the field values to [result]:
      an argument that the method tests against [None] is an [option]; a
      node that already exists (a child in a body) carries fields of the
      annotated types, whether or not it satisfies its own validator
      ([model_construct] builds instances without running any validator).
      What pydantic itself does around the methods (field-type checks, and
      running the validators of the children again) is library code and is
      not modelled. *)

From Stdlib Require Import List Arith NArith Bool String Ascii Lia.
Import ListNotations.
Local Open Scope N_scope.
Local Open Scope list_scope.

Set Implicit Arguments.
Set Warnings "-register-all".

(* ================================================================== *)
(** * Python strings *)
(* ================================================================== *)

Module PyStr.

(** A [str] value: its code points, in order. *)
Definition str := list N.

(** The code points of a literal. *)
Definition U (s : string) : str := map N_of_ascii (list_ascii_of_string s).

Fixpoint eqb (a b : str) : bool :=
  match a, b with
  | [], [] => true
  | x :: a', y :: b' => (x =? y) && eqb a' b'
  | _, _ => false
  end.

(** [c.isspace()] for a one-character string, the set used by [str.strip],
    [str.lstrip] and [str.split(None)]: the code points whose bidirectional
    class is WS, B or S, or whose category is Zs. *)
Definition isspace (c : N) : bool :=
  ((0x09 <=? c) && (c <=? 0x0D))
  || ((0x1C <=? c) && (c <=? 0x1F))
  || (c =? 0x20) || (c =? 0x85) || (c =? 0xA0) || (c =? 0x1680)
  || ((0x2000 <=? c) && (c <=? 0x200A))
  || (c =? 0x2028) || (c =? 0x2029) || (c =? 0x202F) || (c =? 0x205F)
  || (c =? 0x3000).

Fixpoint drop_while (p : N -> bool) (s : str) : str :=
  match s with
  | [] => []
  | c :: t => if p c then drop_while p t else s
  end.

Fixpoint take_while (p : N -> bool) (s : str) : str :=
  match s with
  | [] => []
  | c :: t => if p c then c :: take_while p t else []
  end.

(** [s.lstrip()], [s.rstrip()], [s.strip()]. *)
Definition lstrip (s : str) : str := drop_while isspace s.
Definition rstrip (s : str) : str := rev (drop_while isspace (rev s)).
Definition strip (s : str) : str := rstrip (lstrip s).

(** [s.startswith(c)] for a one-character [c]. *)
Definition startswith (s : str) (c : N) : bool :=
  match s with
  | x :: _ => x =? c
  | [] => false
  end.

(** [s[1:]]. *)
Definition slice_from_1 (s : str) : str := tl s.

(** [s.split(None, 1)[0]]: the first whitespace-delimited field of [s];
    [None] stands for the [IndexError] raised when [s] has no field (it is
    empty or all whitespace, and [split] returns the empty list). *)
Definition split_None_1_head (s : str) : option str :=
  match lstrip s with
  | [] => None
  | t => Some (take_while (fun c => negb (isspace c)) t)
  end.

(** [x in (a, b, ...)] for strings. *)
Definition str_in (x : str) (l : list str) : bool := existsb (eqb x) l.

(** ** The two regular expressions of models.py *)

(** [[A-Za-z_]] and [[A-Za-z0-9_]]. *)
Definition is_ident_start (c : N) : bool :=
  ((0x41 <=? c) && (c <=? 0x5A)) || ((0x61 <=? c) && (c <=? 0x7A)) || (c =? 0x5F).
Definition is_ident_char (c : N) : bool :=
  is_ident_start c || ((0x30 <=? c) && (c <=? 0x39)).

(** [_C_IDENT_PREFIX.match(s)], with [_C_IDENT_PREFIX =
    re.compile(r"^[A-Za-z_][A-Za-z0-9_]*")]: [Some (m.group(0))] when it
    matches, [None] otherwise.  The star is greedy and nothing follows it, so
    the group is the longest leading run. *)
Definition _C_IDENT_PREFIX_match (s : str) : option str :=
  match s with
  | c :: t => if is_ident_start c then Some (c :: take_while is_ident_char t)
              else None
  | [] => None
  end.

(** [bool(_C_IDENT.match(s))], with [_C_IDENT =
    re.compile(r"^[A-Za-z_][A-Za-z0-9_]*$")].  Without [re.MULTILINE], [$]
    matches at the end of the string and also just before a newline that is
    the last character; a shorter run of the star cannot help, since the
    character after it would be an identifier character. *)
Definition _C_IDENT_match (s : str) : bool :=
  match s with
  | c :: t =>
      let rest := drop_while is_ident_char t in
      is_ident_start c && (eqb rest [] || eqb rest [0x0A])
  | [] => false
  end.

End PyStr.
Import PyStr.

(* ================================================================== *)
(** * Errors *)
(* ================================================================== *)

(** The literal types of the two [kind] fields.  ([if] is a keyword, so
    every name carries a [K].) *)
Inductive DirectiveKind := Kinclude | Kdefine | Kundef | Kpragma | Kerror.
Inductive BranchKind := Kif | Kifdef | Kifndef | Kelif.

Definition directive_name (k : DirectiveKind) : str :=
  match k with
  | Kinclude => U "include"
  | Kdefine => U "define"
  | Kundef => U "undef"
  | Kpragma => U "pragma"
  | Kerror => U "error"
  end.

Definition branch_name (k : BranchKind) : str :=
  match k with
  | Kif => U "if"
  | Kifdef => U "ifdef"
  | Kifndef => U "ifndef"
  | Kelif => U "elif"
  end.

(** One constructor per raise site of models.py (all of them raise
    [ValueError]; what differs is the message).  Where the specification's
    error taxonomy has a name for the site, the constructor bears it. *)
Inductive error :=
  | TextContentNoneError
      (* "TextBlock.content must not be None" *)
  | RawFormatError_missing_hash (raw : str)
      (* "directive raw must start with '#': ..." *)
  | RawFormatError_keyword_mismatch (expected kw raw : str)
      (* "raw directive keyword mismatch: expected #..., got #... in ..." *)
  | EmptyConditionError (where_ : BranchKind)
      (* "...: condition must be non-empty" *)
  | InvalidIdentifierError (where_ : BranchKind) (cond : str)
      (* "...: expected C identifier for ifdef/ifndef condition, got ..." *)
  | DirectiveRawEmptyError
      (* "DirectiveNode.raw must be non-empty" *)
  | BranchRawEmptyError
      (* "ConditionalBranch.raw must be non-empty" *)
  | NullBodyError
      (* "ConditionalBranch.body must not be None" *)
  | EntryKindError (k : BranchKind)
      (* "ConditionalGroup.entry.kind must be one of if/ifdef/ifndef, got ..." *)
  | HeterogeneousElifError (i : nat) (k : BranchKind)
      (* "ConditionalGroup.elifs[i].kind must be 'elif', got ..." *)
  | IllegalNestedDirectiveError (raw : str)
      (* "Illegal conditional directive inside body as DirectiveNode: ..." *)
  | EmptyPathError
      (* "FileRoot.path must be non-empty" *)
  | NullItemsError
      (* "FileRoot.items must not be None" *)
  | NullItemError (i : nat)
      (* "FileRoot.items[i] is None" *)
  | PyIndexError
      (* not a ValueError: [s.split(None, 1)[0]] on a string without a field *)
  .

Inductive result (A : Type) :=
  | Ok (a : A)
  | Err (e : error).
Arguments Err {A} e.

Definition bind A B (r : result A) (f : A -> result B) : result B :=
  match r with
  | Ok a => f a
  | Err e => Err e
  end.

Notation "'do' x <- r ; f" := (bind r (fun x => f))
  (at level 10, x name, r at level 100, f at level 200).
Notation "'do_' r ; f" := (bind r (fun _ => f))
  (at level 10, r at level 100, f at level 200).

Definition is_ok A (r : result A) : bool :=
  match r with Ok _ => true | Err _ => false end.

(** [for x in l: f(x)] and [for i, x in enumerate(l): f(i, x)], where the
    body may raise. *)
Fixpoint for_each A (f : A -> result unit) (l : list A) : result unit :=
  match l with
  | [] => Ok tt
  | x :: t => do_ f x; for_each f t
  end.

Fixpoint for_each_enum A (f : nat -> A -> result unit) (i : nat) (l : list A)
  : result unit :=
  match l with
  | [] => Ok tt
  | x :: t => do_ f i x; for_each_enum f (S i) t
  end.

(* ================================================================== *)
(** * models.py: helpers *)
(* ================================================================== *)

Definition _strip_hash_prefix (raw : str) : result str :=
  let s := lstrip raw in
  if negb (startswith s 0x23) then Err (RawFormatError_missing_hash raw)
  else Ok s.

(** The value of the local [kw] of [_expect_directive]. *)
Definition _expect_directive_kw (raw : str) : result str :=
  do s0 <- _strip_hash_prefix raw;
  let s := lstrip (slice_from_1 s0) in
  Ok (match _C_IDENT_PREFIX_match s with
      | Some group0 => group0
      | None => []
      end).

Definition _expect_directive (raw expected : str) : result unit :=
  do kw <- _expect_directive_kw raw;
  if negb (eqb kw expected)
  then Err (RawFormatError_keyword_mismatch expected kw raw)
  else Ok tt.

Definition _require_nonempty_condition (cond : option str) (where_ : BranchKind)
  : result unit :=
  match cond with
  | None => Err (EmptyConditionError where_)
  | Some c => if eqb (strip c) [] then Err (EmptyConditionError where_)
              else Ok tt
  end.

Definition _require_identifier (cond : option str) (where_ : BranchKind)
  : result unit :=
  do_ _require_nonempty_condition cond where_;
  match cond with
  | None => Err (EmptyConditionError where_)  (* not reached *)
  | Some cond' =>
      let c := strip cond' in
      if negb (_C_IDENT_match c) then Err (InvalidIdentifierError where_ cond')
      else Ok tt
  end.

(* ================================================================== *)
(** * models.py: the models *)
(* ================================================================== *)

Record ConditionalBranch_ (node : Type) := mkBranch {
  kind : BranchKind;
  condition : str;
  body : list node;
  raw : str
}.

Record ConditionalGroup_ (node : Type) := mkGroup {
  entry : ConditionalBranch_ node;
  elifs : option (list (ConditionalBranch_ node));
  else_body : option (list node);
  else_raw : option str;
  endif_raw : str
}.

(** [Node = Union[TextBlock, DirectiveNode, ConditionalGroup]]. *)
Inductive Node :=
  | TextBlock (content : str)
  | DirectiveNode (dkind : DirectiveKind) (draw : str)
  | GroupNode (g : ConditionalGroup_ Node).

Definition ConditionalBranch := ConditionalBranch_ Node.
Definition ConditionalGroup := ConditionalGroup_ Node.

Record FileRoot := mkRoot {
  path : str;
  items : list Node
}.

(** The default of [endif_raw]. *)
Definition endif_raw_default : str := U "#endif".

(** ** TextBlock._validate_text *)
Definition _validate_text (content : option str) : result Node :=
  match content with
  | None => Err TextContentNoneError
  | Some c => Ok (TextBlock c)
  end.

(** ** DirectiveNode._validate_directive *)
Definition _validate_directive (k : DirectiveKind) (raw : option str)
  : result Node :=
  match raw with
  | None => Err DirectiveRawEmptyError
  | Some r =>
      if eqb (strip r) [] then Err DirectiveRawEmptyError
      else
        do_ _expect_directive r (directive_name k);
        Ok (DirectiveNode k r)
  end.

(** ** ConditionalBranch._validate_branch *)
Definition _validate_branch (k : BranchKind) (condition : option str)
    (body : option (list Node)) (raw : option str) : result ConditionalBranch :=
  match raw with
  | None => Err BranchRawEmptyError
  | Some r =>
      if eqb (strip r) [] then Err BranchRawEmptyError
      else
        do_ _expect_directive r (branch_name k);
        do_ match k with
            | Kif | Kelif => _require_nonempty_condition condition k
            | Kifdef | Kifndef => _require_identifier condition k
            end;
        match body, condition with
        | None, _ => Err NullBodyError
        | Some b, Some c => Ok (mkBranch k c b r)
        | Some _, None => Err (EmptyConditionError k)  (* not reached *)
        end
  end.

(** ** ConditionalGroup._validate_group *)

(** The tuple tested in [_walk]. *)
Definition conditional_keywords : list str :=
  [U "if"; U "ifdef"; U "ifndef"; U "elif"; U "else"; U "endif"].

(** The value of the local [kw] of [_walk] for a [DirectiveNode] whose raw
    is [raw]: [s.split(None, 1)[0] if s else ""], with
    [s = _strip_hash_prefix(n.raw)[1:].lstrip()]. *)
Definition _walk_kw (raw : str) : result str :=
  do s0 <- _strip_hash_prefix raw;
  let s := lstrip (slice_from_1 s0) in
  match s with
  | [] => Ok []
  | _ => match split_None_1_head s with
         | Some field0 => Ok field0
         | None => Err PyIndexError
         end
  end.

(** The body of the loop of [_walk].  [Node] is closed, so the final
    [else: raise ValueError("Unknown node type ...")] has no case here. *)
Definition _walk_node (n : Node) : result unit :=
  match n with
  | DirectiveNode _ raw =>
      do kw <- _walk_kw raw;
      if str_in kw conditional_keywords
      then Err (IllegalNestedDirectiveError raw)
      else Ok tt
  | GroupNode _ => Ok tt
  | TextBlock _ => Ok tt
  end.

Definition _walk (nodes : list Node) : result unit := for_each _walk_node nodes.

Definition is_opening (k : BranchKind) : bool :=
  match k with
  | Kif | Kifdef | Kifndef => true
  | Kelif => false
  end.

Definition is_elif (k : BranchKind) : bool :=
  match k with
  | Kelif => true
  | _ => false
  end.

(** Steps 1, 2 and 4 of the validator, in the order of the source.  Step 3
    ([else_body] is not [None] and not a [list]) cannot fail on a value of
    type [option (list Node)].  [if self.elifs:] is Python truthiness: the
    bodies of the elifs are walked when the list is present and non-empty.
    [else_raw] and [endif_raw] are read nowhere. *)
Definition _validate_group (g : ConditionalGroup) : result ConditionalGroup :=
  if negb (is_opening (kind (entry g))) then Err (EntryKindError (kind (entry g)))
  else
    do_ match elifs g with
        | Some bs =>
            for_each_enum
              (fun i b => if negb (is_elif (kind b))
                          then Err (HeterogeneousElifError i (kind b))
                          else Ok tt)
              0%nat bs
        | None => Ok tt
        end;
    do_ _walk (body (entry g));
    do_ match elifs g with
        | Some ((_ :: _) as bs) => for_each (fun b => _walk (body b)) bs
        | _ => Ok tt
        end;
    do_ match else_body g with
        | Some nodes => _walk nodes
        | None => Ok tt
        end;
    Ok g.

(** ** FileRoot._validate_root *)

(** The loop over [enumerate(self.items)], returning the items it accepted. *)
Fixpoint check_items (i : nat) (l : list (option Node)) : result (list Node) :=
  match l with
  | [] => Ok []
  | None :: _ => Err (NullItemError i)
  | Some n :: t => do r <- check_items (S i) t; Ok (n :: r)
  end.

Definition _validate_root (path : option str) (items : option (list (option Node)))
  : result FileRoot :=
  match path with
  | None => Err EmptyPathError
  | Some p =>
      if eqb (strip p) [] then Err EmptyPathError
      else
        match items with
        | None => Err NullItemsError
        | Some l => do its <- check_items 0%nat l; Ok (mkRoot p its)
        end
  end.

(* ================================================================== *)
(** * core/tostring.py *)
(* ================================================================== *)

Section ToString.

(** What a call returns: [Some text] for a [str], [None] for Python's
    [None]. *)
Definition returned := option str.

(** The arguments a caller passes to [tostring]: the three shapes it is
    annotated for, and a [FileRoot]. *)
Inductive tostring_arg :=
  | OfNodes (nodes : list Node)
  | OfNode (node : Node)
  | OfFiles (files : list (str * list Node))
  | OfRoot (root : FileRoot).

(** The three registered overloads.  Each body is [pass]: the call returns
    [None]. *)
Definition _tostring_nodes (nodes : list Node) : returned := None.
Definition _tostring_node (node : Node) : returned := None.
Definition _tostring_files (files : list (str * list Node)) : returned := None.

(** The generic function: it dispatches on the argument to an overload, and
    its own body, which serves every other argument, is [pass] too. *)
Definition tostring (x : tostring_arg) : returned :=
  match x with
  | OfNodes nodes => _tostring_nodes nodes
  | OfNode node => _tostring_node node
  | OfFiles files => _tostring_files files
  | OfRoot _ => None
  end.

End ToString.

(* ================================================================== *)
(** * Vocabulary of the specification *)
(* ================================================================== *)

(** The C-identifier grammar [[A-Za-z_][A-Za-z0-9_]*], for a whole string. *)
Definition is_c_identifier (s : str) : bool :=
  match s with
  | c :: t => is_ident_start c && forallb is_ident_char t
  | [] => false
  end.

(** The condition rule of a branch kind: non-empty after trimming for
    [if]/[elif], a C identifier after trimming for [ifdef]/[ifndef]. *)
Definition condition_rule (k : BranchKind) (cond : str) : bool :=
  match k with
  | Kif | Kelif => negb (eqb (strip cond) [])
  | Kifdef | Kifndef => is_c_identifier (strip cond)
  end.

(** The body slots of a group: [entry.body], every [elifs[i].body],
    [else_body]. *)
Definition body_slots (g : ConditionalGroup) : list (list Node) :=
  body (entry g)
  :: match elifs g with Some bs => map (@body Node) bs | None => [] end
  ++ match else_body g with Some l => [l] | None => [] end.


(** Every [DirectiveNode] that is a direct child of a body slot of [g]
    satisfies [P]. *)
Definition directive_children (P : DirectiveKind -> str -> Prop)
    (g : ConditionalGroup) : Prop :=
  forall slot k r,
    In slot (body_slots g) -> In (DirectiveNode k r) slot -> P k r.

(** A tree without [ConditionalGroup]: text blocks and flat directives. *)
Definition is_flat (n : Node) : bool :=
  match n with
  | TextBlock _ | DirectiveNode _ _ => true
  | GroupNode _ => false
  end.

(** The [content] of a text block, the [raw] of a directive. *)
Definition own_text (n : Node) : str :=
  match n with
  | TextBlock content => content
  | DirectiveNode _ raw => raw
  | GroupNode _ => []
  end.

(** The group [g] with other [else_raw] and [endif_raw]. *)
Definition with_raws (g : ConditionalGroup) (er : option str) (en : str)
  : ConditionalGroup :=
  mkGroup (entry g) (elifs g) (else_body g) er en.





(** [rest] is empty or starts with a character outside [[A-Za-z0-9_]]. *)
Definition stops_identifier (rest : str) : bool :=
  match rest with
  | [] => true
  | c :: _ => negb (is_ident_char c)
  end.

(* ================================================================== *)
(** * Facts about the string primitives *)
(* ================================================================== *)

Module PyStrFacts.

Lemma eqb_eq (a b : str) : eqb a b = true <-> a = b.
Proof.
  revert b; induction a as [|x a IH]; intros [|y b]; simpl;
    try (split; [discriminate | congruence]); try tauto.
  rewrite andb_true_iff, N.eqb_eq, IH.
  split; [intros [-> ->]; reflexivity | intros E; injection E; auto].
Qed.

Lemma eqb_refl (a : str) : eqb a a = true.
Proof. apply eqb_eq; reflexivity. Qed.

Lemma eqb_neq (a b : str) : eqb a b = false <-> a <> b.
Proof.
  rewrite <- eqb_eq. destruct (eqb a b); split; congruence.
Qed.

Lemma str_in_In (x : str) (l : list str) : str_in x l = true <-> In x l.
Proof.
  unfold str_in. rewrite existsb_exists. split.
  - intros (y & Hy & E). apply eqb_eq in E. subst; assumption.
  - intros H. exists x. split; [assumption | apply eqb_refl].
Qed.

(** ** Character classes *)

Ltac bool_to_prop :=
  repeat rewrite ?orb_true_iff, ?andb_true_iff, ?N.leb_le, ?N.eqb_eq in *.

Lemma ident_start_char (c : N) : is_ident_start c = true -> is_ident_char c = true.
Proof. unfold is_ident_char. intros ->. reflexivity. Qed.

Lemma ident_char_not_space (c : N) : is_ident_char c = true -> isspace c = false.
Proof.
  intros H. apply not_true_is_false. intros W.
  unfold is_ident_char, is_ident_start, isspace in *.
  bool_to_prop. lia.
Qed.

Lemma space_not_ident_char (c : N) : isspace c = true -> is_ident_char c = false.
Proof.
  intros W. destruct (is_ident_char c) eqn:E; [|reflexivity].
  apply ident_char_not_space in E. congruence.
Qed.

(** ** take_while and drop_while *)

Section Runs.
Variable p : N -> bool.

Lemma take_drop (s : str) : take_while p s ++ drop_while p s = s.
Proof.
  induction s as [|c t IH]; simpl; [reflexivity|].
  destruct (p c); simpl; [rewrite IH|]; reflexivity.
Qed.

Lemma take_while_all (s : str) : forallb p (take_while p s) = true.
Proof.
  induction s as [|c t IH]; simpl; [reflexivity|].
  destruct (p c) eqn:E; simpl; [rewrite E, IH|]; reflexivity.
Qed.

Lemma drop_while_head (s : str) c t : drop_while p s = c :: t -> p c = false.
Proof.
  induction s as [|x s IH]; simpl; [discriminate|].
  destruct (p x) eqn:E; [exact IH|].
  intros H; injection H as -> _. exact E.
Qed.

Lemma drop_while_nil (s : str) : drop_while p s = [] <-> forallb p s = true.
Proof.
  induction s as [|c t IH]; simpl; [tauto|].
  destruct (p c); simpl; [exact IH | split; discriminate].
Qed.

Lemma drop_while_app_all (a s : str) :
  forallb p a = true -> drop_while p (a ++ s) = drop_while p s.
Proof.
  induction a as [|c a IH]; simpl; [reflexivity|].
  destruct (p c); simpl; [exact IH | discriminate].
Qed.

Lemma drop_while_idem (s : str) : drop_while p (drop_while p s) = drop_while p s.
Proof.
  destruct (drop_while p s) as [|c t] eqn:E; [reflexivity|].
  simpl. rewrite (drop_while_head _ E). reflexivity.
Qed.

Lemma drop_while_snoc (s : str) c : p c = false -> drop_while p (s ++ [c]) <> [].
Proof.
  intros Hc. induction s as [|x s IH]; simpl.
  - rewrite Hc. discriminate.
  - destruct (p x); [exact IH | discriminate].
Qed.

(** The run read by [take_while] is all of [a] when what follows [a] does
    not start with a character of the class. *)
Lemma take_while_app_stop (a s : str) :
  forallb p a = true ->
  match s with [] => True | c :: _ => p c = false end ->
  take_while p (a ++ s) = a.
Proof.
  intros Ha Hs. induction a as [|c a IH]; simpl in *.
  - destruct s as [|c s]; simpl; [reflexivity | rewrite Hs; reflexivity].
  - apply andb_true_iff in Ha as [-> Ha]. rewrite IH by assumption. reflexivity.
Qed.

End Runs.

(** ** lstrip, strip *)

Lemma lstrip_app_space (ws s : str) :
  forallb isspace ws = true -> lstrip (ws ++ s) = lstrip s.
Proof. apply drop_while_app_all. Qed.

Lemma lstrip_idem (s : str) : lstrip (lstrip s) = lstrip s.
Proof. apply drop_while_idem. Qed.

Lemma lstrip_head (s : str) c t : lstrip s = c :: t -> isspace c = false.
Proof. apply drop_while_head. Qed.

Lemma strip_nil (s : str) : strip s = [] <-> forallb isspace s = true.
Proof.
  unfold strip, rstrip, lstrip. split.
  - intros H. apply drop_while_nil.
    destruct (drop_while isspace s) as [|c t] eqn:E; [reflexivity|].
    exfalso. apply (f_equal (@rev N)) in H. rewrite rev_involutive in H.
    simpl in H. apply (drop_while_snoc isspace (rev t) c); [|exact H].
    exact (drop_while_head _ _ E).
  - intros H. apply drop_while_nil in H. rewrite H. reflexivity.
Qed.

Lemma strip_nil_lstrip (s : str) : strip s = [] <-> lstrip s = [].
Proof. rewrite strip_nil. unfold lstrip. symmetry. apply drop_while_nil. Qed.

(** The last character of a stripped string is not whitespace. *)
Lemma strip_last (s a : str) c : strip s = a ++ [c] -> isspace c = false.
Proof.
  unfold strip, rstrip. intros H.
  apply (f_equal (@rev N)) in H. rewrite rev_involutive, rev_app_distr in H.
  simpl in H. exact (drop_while_head _ _ H).
Qed.

(** The first character of a stripped string is not whitespace. *)
Lemma strip_head (s t : str) c : strip s = c :: t -> isspace c = false.
Proof.
  unfold strip, rstrip. intros H.
  destruct (lstrip s) as [|x l] eqn:E; [discriminate|].
  pose proof (lstrip_head _ E) as Hx.
  pose proof (take_drop isspace (rev (x :: l))) as TD.
  apply (f_equal (@rev N)) in TD. rewrite rev_app_distr, rev_involutive, H in TD.
  simpl in TD. injection TD as -> _. exact Hx.
Qed.

End PyStrFacts.
Import PyStrFacts.

(* ================================================================== *)
(** * The helpers of models.py *)
(* ================================================================== *)

Section Helpers.

Lemma bind_ok A B (r : result A) (f : A -> result B) b :
  bind r f = Ok b <-> exists a, r = Ok a /\ f a = Ok b.
Proof.
  destruct r as [a|e]; simpl; split.
  - intros H; exists a; auto.
  - intros (a' & E & H); injection E as ->; exact H.
  - discriminate.
  - intros (a' & E & _); discriminate.
Qed.

Lemma _strip_hash_prefix_ok (raw s0 : str) :
  _strip_hash_prefix raw = Ok s0 <->
  s0 = lstrip raw /\ exists t, lstrip raw = 0x23 :: t.
Proof.
  unfold _strip_hash_prefix, startswith.
  destruct (lstrip raw) as [|c t] eqn:E; simpl.
  - split; [discriminate | intros (_ & t & H); discriminate].
  - destruct (N.eqb_spec c 0x23) as [->|Hc]; simpl.
    + split; [intros H; injection H as <-; eauto | intros (-> & _); reflexivity].
    + split; [discriminate | intros (_ & t' & H); congruence].
Qed.

(** A raw that passes [_strip_hash_prefix] is not blank. *)
Lemma _strip_hash_prefix_not_blank (raw s0 : str) :
  _strip_hash_prefix raw = Ok s0 -> eqb (strip raw) [] = false.
Proof.
  intros H. apply _strip_hash_prefix_ok in H as (_ & t & H).
  apply eqb_neq. rewrite strip_nil_lstrip, H. discriminate.
Qed.

Lemma _expect_directive_ok (raw expected : str) :
  _expect_directive raw expected = Ok tt <-> _expect_directive_kw raw = Ok expected.
Proof.
  unfold _expect_directive. destruct (_expect_directive_kw raw) as [kw|e]; simpl.
  - destruct (eqb kw expected) eqn:E; simpl.
    + apply eqb_eq in E. subst. tauto.
    + apply eqb_neq in E. split; [discriminate | congruence].
  - split; discriminate.
Qed.

Lemma _expect_directive_kw_not_blank (raw kw : str) :
  _expect_directive_kw raw = Ok kw -> eqb (strip raw) [] = false.
Proof.
  unfold _expect_directive_kw. intros H.
  apply bind_ok in H as (s0 & H & _). exact (_strip_hash_prefix_not_blank _ H).
Qed.

(** Whitespace before and after the ['#'] does not change the keyword. *)
Lemma _expect_directive_kw_spaces (ws1 ws2 rest : str) :
  forallb isspace ws1 = true -> forallb isspace ws2 = true ->
  _expect_directive_kw (ws1 ++ 0x23 :: ws2 ++ rest)
  = _expect_directive_kw (0x23 :: rest).
Proof.
  intros H1 H2. unfold _expect_directive_kw, _strip_hash_prefix.
  rewrite lstrip_app_space by assumption. simpl.
  rewrite lstrip_app_space by assumption. reflexivity.
Qed.

(** On a stripped string the [$] of [_C_IDENT] can only match at the very
    end, so [_C_IDENT] decides the identifier grammar for the whole string. *)
Lemma _C_IDENT_match_strip (c : str) :
  _C_IDENT_match (strip c) = is_c_identifier (strip c).
Proof.
  destruct (strip c) as [|x t] eqn:E; [reflexivity|].
  simpl. destruct (is_ident_start x); [simpl|reflexivity].
  destruct (drop_while is_ident_char t) as [|y d] eqn:D.
  - apply drop_while_nil in D. rewrite D. reflexivity.
  - assert (F : forallb is_ident_char t = false).
    { destruct (forallb is_ident_char t) eqn:F; [|reflexivity].
      apply drop_while_nil in F. congruence. }
    assert (Q : eqb (y :: d) [0x0A] = false).
    { apply eqb_neq. intros Q.
      pose proof (take_drop is_ident_char t) as TD. rewrite D, Q in TD.
      assert (S : strip c = (x :: take_while is_ident_char t) ++ [0x0A])
        by (rewrite E; simpl; rewrite TD; reflexivity).
      apply strip_last in S. discriminate. }
    rewrite F. simpl in *. exact Q.
Qed.

Lemma _require_nonempty_condition_ok (cond : str) (k : BranchKind) :
  _require_nonempty_condition (Some cond) k = Ok tt <-> strip cond <> [].
Proof.
  unfold _require_nonempty_condition. destruct (eqb (strip cond) []) eqn:E.
  - apply eqb_eq in E. split; [discriminate | congruence].
  - apply eqb_neq in E. tauto.
Qed.

Lemma is_c_identifier_nonempty (s : str) : is_c_identifier s = true -> s <> [].
Proof. destruct s; [discriminate | discriminate]. Qed.

Lemma _require_identifier_ok (cond : str) (k : BranchKind) :
  _require_identifier (Some cond) k = Ok tt <-> is_c_identifier (strip cond) = true.
Proof.
  unfold _require_identifier, _require_nonempty_condition.
  rewrite _C_IDENT_match_strip.
  destruct (eqb (strip cond) []) eqn:E; simpl.
  - apply eqb_eq in E. rewrite E. simpl. split; discriminate.
  - destruct (is_c_identifier (strip cond)); simpl; split; congruence.
Qed.

(** The condition step of [_validate_branch] is the condition rule. *)
Lemma condition_step_ok (k : BranchKind) (cond : str) :
  match k with
  | Kif | Kelif => _require_nonempty_condition (Some cond) k
  | Kifdef | Kifndef => _require_identifier (Some cond) k
  end = Ok tt <-> condition_rule k cond = true.
Proof.
  destruct k; unfold condition_rule;
    first [ apply _require_identifier_ok
          | rewrite _require_nonempty_condition_ok, negb_true_iff, eqb_neq;
            tauto ].
Qed.

(** [_validate_branch] succeeds exactly when the raw keyword is the kind's
    name and the condition obeys the kind's rule; the result then holds the
    fields as given. *)
Lemma _validate_branch_ok (k : BranchKind) (cond : str) (b : list Node) (r : str) :
  _validate_branch k (Some cond) (Some b) (Some r) = Ok (mkBranch k cond b r)
  <-> _expect_directive_kw r = Ok (branch_name k) /\ condition_rule k cond = true.
Proof.
  unfold _validate_branch. split.
  - destruct (eqb (strip r) []); [discriminate|].
    intros H. apply bind_ok in H as ([] & H1 & H).
    apply bind_ok in H as ([] & H2 & _).
    split; [apply _expect_directive_ok, H1 | apply condition_step_ok, H2].
  - intros [H1 H2]. rewrite (_expect_directive_kw_not_blank _ H1).
    apply _expect_directive_ok in H1. rewrite H1. cbn [bind].
    apply condition_step_ok in H2. rewrite H2. reflexivity.
Qed.

Lemma _validate_branch_result k cond b r (br : ConditionalBranch) :
  _validate_branch k (Some cond) (Some b) (Some r) = Ok br -> br = mkBranch k cond b r.
Proof.
  unfold _validate_branch. destruct (eqb (strip r) []); [discriminate|].
  intros H. apply bind_ok in H as ([] & _ & H).
  apply bind_ok in H as ([] & _ & H). congruence.
Qed.

End Helpers.

(* ================================================================== *)
(** * DirectiveNode and ConditionalBranch *)
(* ================================================================== *)

Section Leaves.

Lemma _validate_directive_ok (k : DirectiveKind) (r : str) (n : Node) :
  _validate_directive k (Some r) = Ok n
  <-> n = DirectiveNode k r /\ _expect_directive_kw r = Ok (directive_name k).
Proof.
  unfold _validate_directive. split.
  - destruct (eqb (strip r) []); [discriminate|].
    intros H. apply bind_ok in H as ([] & H1 & H).
    apply _expect_directive_ok in H1. split; congruence.
  - intros [-> H]. rewrite (_expect_directive_kw_not_blank _ H).
    apply _expect_directive_ok in H. rewrite H. reflexivity.
Qed.

(** Whether a raw passes the two raw checks depends on its keyword only. *)
Lemma is_ok_expect_directive (r1 r0 expected : str) :
  _expect_directive_kw r1 = _expect_directive_kw r0 ->
  is_ok (_expect_directive r1 expected) = is_ok (_expect_directive r0 expected).
Proof.
  unfold _expect_directive. intros ->.
  destruct (_expect_directive_kw r0) as [kw|e]; simpl; [|reflexivity].
  destruct (eqb kw expected); reflexivity.
Qed.

Lemma blank_same_kw (r1 r0 : str) :
  _expect_directive_kw r1 = _expect_directive_kw r0 ->
  is_ok (_expect_directive_kw r0) = true ->
  eqb (strip r1) [] = false /\ eqb (strip r0) [] = false.
Proof.
  intros E H. destruct (_expect_directive_kw r0) as [kw|] eqn:K; [|discriminate].
  split; eapply _expect_directive_kw_not_blank; eassumption.
Qed.

Lemma is_ok_bind_same A B C (r1 r0 : result A) (f1 : A -> result B) (f0 : A -> result C) :
  is_ok r1 = is_ok r0 ->
  (forall a a', is_ok (f1 a) = is_ok (f0 a')) ->
  is_ok (bind r1 f1) = is_ok (bind r0 f0).
Proof.
  destruct r1, r0; simpl; intros H F; try discriminate; auto.
Qed.

End Leaves.

Section BranchClaims.

(** C4.  The condition check of a branch depends on its kind.  A branch that
    constructs obeys its kind's rule: for [ifdef]/[ifndef] the trimmed
    condition is a C identifier as a whole string, for [if]/[elif] it is
    non-empty.  When the raw keyword matches the kind, the outcome is decided
    by the condition alone: a blank condition is an [EmptyConditionError];
    otherwise [if]/[elif] construct, and [ifdef]/[ifndef] construct exactly
    when the trimmed condition is an identifier, failing with
    [InvalidIdentifierError] when it is not.  So [ifdef] with condition
    "1BAD" and raw "#ifdef 1BAD" fails with [InvalidIdentifierError], and
    with condition "FOO_BAR" it constructs. *)
Theorem C4_branch_condition_by_kind :
  (forall k cond b r br,
     _validate_branch k (Some cond) (Some b) (Some r) = Ok br ->
     match k with
     | Kifdef | Kifndef => is_c_identifier (strip cond) = true
     | Kif | Kelif => strip cond <> []
     end)
  /\ (forall k cond b r,
        _expect_directive_kw r = Ok (branch_name k) ->
        _validate_branch k (Some cond) (Some b) (Some r) =
          if eqb (strip cond) [] then Err (EmptyConditionError k)
          else match k with
               | Kif | Kelif => Ok (mkBranch k cond b r)
               | Kifdef | Kifndef =>
                   if is_c_identifier (strip cond) then Ok (mkBranch k cond b r)
                   else Err (InvalidIdentifierError k cond)
               end)
  /\ _validate_branch Kifdef (Some (U "1BAD")) (Some []) (Some (U "#ifdef 1BAD"))
     = Err (InvalidIdentifierError Kifdef (U "1BAD"))
  /\ _validate_branch Kifdef (Some (U "FOO_BAR")) (Some []) (Some (U "#ifdef FOO_BAR"))
     = Ok (mkBranch Kifdef (U "FOO_BAR") [] (U "#ifdef FOO_BAR"))
  /\ _validate_branch Kifdef (Some (U "FOO_BAR")) (Some []) (Some (U "#ifdef 1BAD"))
     = Ok (mkBranch Kifdef (U "FOO_BAR") [] (U "#ifdef 1BAD")).
Proof.
  split; [|split; [|repeat split; reflexivity]].
  - intros k cond b r br H.
    pose proof (_validate_branch_result _ _ _ _ H) as ->.
    apply _validate_branch_ok in H as [_ H].
    destruct k; simpl in H; try exact H;
      apply negb_true_iff, eqb_neq in H; exact H.
  - intros k cond b r H. unfold _validate_branch.
    rewrite (_expect_directive_kw_not_blank _ H).
    apply _expect_directive_ok in H. rewrite H. cbn [bind].
    unfold _require_identifier, _require_nonempty_condition.
    rewrite _C_IDENT_match_strip.
    destruct k; destruct (eqb (strip cond) []); simpl; try reflexivity;
      destruct (is_c_identifier (strip cond)); reflexivity.
Qed.

Lemma C4_branch_condition_by_kind_witness :
  is_c_identifier (strip (U " _x9 ")) = true
  /\ (_expect_directive_kw (U "#ifndef 1BAD") = Ok (branch_name Kifndef)
      /\ _validate_branch Kifndef (Some (U "1BAD")) (Some [])
           (Some (U "#ifndef 1BAD"))
         = Err (InvalidIdentifierError Kifndef (U "1BAD"))).
Proof.
  split.
  - exact (proj1 C4_branch_condition_by_kind Kifdef (U " _x9 ") []
             (U "# ifdef _x9") _ eq_refl).
  - split; [reflexivity|].
    exact (proj1 (proj2 C4_branch_condition_by_kind)
             Kifndef (U "1BAD") [] (U "#ifndef 1BAD") eq_refl).
Defined.

(** C5.  Keyword extraction ignores whitespace before and after the ['#']
    and is exact on the keyword.  Whitespace around ['#'] changes neither the
    extracted keyword nor whether a directive or a branch constructs; a
    directive or a branch that constructs has the name of its kind as
    extracted keyword, compared code point by code point (so case matters).
    As [ifdef], "#   ifdef FOO" and "#ifdef FOO" construct, "#ifde FOO" and
    "#IFDEF FOO" do not. *)
Theorem C5_keyword_extraction :
  (forall ws1 ws2 rest,
     forallb isspace ws1 = true -> forallb isspace ws2 = true ->
     let r1 := ws1 ++ 0x23 :: ws2 ++ rest in
     let r0 := 0x23 :: rest in
     _expect_directive_kw r1 = _expect_directive_kw r0
     /\ (forall k, is_ok (_validate_directive k (Some r1))
                   = is_ok (_validate_directive k (Some r0)))
     /\ (forall k cond b, is_ok (_validate_branch k cond b (Some r1))
                          = is_ok (_validate_branch k cond b (Some r0))))
  /\ (forall k r n,
        _validate_directive k (Some r) = Ok n ->
        _expect_directive_kw r = Ok (directive_name k))
  /\ (forall k cond b r br,
        _validate_branch k cond b (Some r) = Ok br ->
        _expect_directive_kw r = Ok (branch_name k))
  /\ _validate_branch Kifdef (Some (U "FOO")) (Some []) (Some (U "#   ifdef FOO"))
     = Ok (mkBranch Kifdef (U "FOO") [] (U "#   ifdef FOO"))
  /\ _validate_branch Kifdef (Some (U "FOO")) (Some []) (Some (U "#ifdef FOO"))
     = Ok (mkBranch Kifdef (U "FOO") [] (U "#ifdef FOO"))
  /\ _validate_branch Kifdef (Some (U "FOO")) (Some []) (Some (U "#ifde FOO"))
     = Err (RawFormatError_keyword_mismatch (U "ifdef") (U "ifde") (U "#ifde FOO"))
  /\ _validate_branch Kifdef (Some (U "FOO")) (Some []) (Some (U "#IFDEF FOO"))
     = Err (RawFormatError_keyword_mismatch (U "ifdef") (U "IFDEF") (U "#IFDEF FOO")).
Proof.
  split; [|split; [|split; [|repeat split; reflexivity]]].
  - intros ws1 ws2 rest H1 H2 r1 r0.
    pose proof (@_expect_directive_kw_spaces ws1 ws2 rest H1 H2) as E.
    fold r1 r0 in E.
    assert (K : is_ok (_expect_directive_kw r0) = true) by reflexivity.
    destruct (blank_same_kw _ _ E K) as [B1 B0].
    split; [exact E|]. split.
    + intros k. unfold _validate_directive. rewrite B1, B0.
      apply is_ok_bind_same; [apply is_ok_expect_directive, E | reflexivity].
    + intros k cond b. unfold _validate_branch. rewrite B1, B0.
      apply is_ok_bind_same; [apply is_ok_expect_directive, E |].
      intros _ _. apply is_ok_bind_same; [reflexivity|].
      intros _ _. destruct b, cond; reflexivity.
  - intros k r n H. apply _validate_directive_ok in H. tauto.
  - intros k cond b r br H. unfold _validate_branch in H.
    destruct (eqb (strip r) []); [discriminate|].
    apply bind_ok in H as ([] & H & _). apply _expect_directive_ok, H.
Qed.

Lemma C5_keyword_extraction_witness :
  (forallb isspace (U " ") = true /\ forallb isspace (U "   ") = true
   /\ _expect_directive_kw (U " #   ifdef FOO") = _expect_directive_kw (U "#ifdef FOO"))
  /\ _expect_directive_kw (U "  # define X 1") = Ok (directive_name Kdefine)
  /\ _expect_directive_kw (U "#elif X > 1") = Ok (branch_name Kelif).
Proof.
  split; [|split].
  - split; [reflexivity|]. split; [reflexivity|].
    exact (proj1 (proj1 C5_keyword_extraction (U " ") (U "   ") (U "ifdef FOO")
                    eq_refl eq_refl)).
  - exact (proj1 (proj2 C5_keyword_extraction) Kdefine (U "  # define X 1") _
             eq_refl).
  - exact (proj1 (proj2 (proj2 C5_keyword_extraction)) Kelif
             (Some (U "X > 1")) (Some []) (U "#elif X > 1") _ eq_refl).
Defined.

(** C9.  A branch's condition is never compared with the text of its raw.
    Whenever the raw keyword is the kind's name and the condition obeys the
    kind's rule, the branch constructs with the fields as given; in
    particular it constructs for a raw made of ['#'], the keyword, a space
    and any text whatever.  [ifdef] with condition "FOO" and raw
    "#ifdef BAR" constructs. *)
Theorem C9_condition_not_cross_checked :
  (forall k cond b r,
     _expect_directive_kw r = Ok (branch_name k) ->
     condition_rule k cond = true ->
     _validate_branch k (Some cond) (Some b) (Some r) = Ok (mkBranch k cond b r))
  /\ (forall k cond b other,
        condition_rule k cond = true ->
        let r := 0x23 :: branch_name k ++ 0x20 :: other in
        _validate_branch k (Some cond) (Some b) (Some r) = Ok (mkBranch k cond b r))
  /\ _validate_branch Kifdef (Some (U "FOO")) (Some []) (Some (U "#ifdef BAR"))
     = Ok (mkBranch Kifdef (U "FOO") [] (U "#ifdef BAR")).
Proof.
  split; [|split; [|reflexivity]].
  - intros k cond b r H1 H2. apply _validate_branch_ok. tauto.
  - intros k cond b other H r. apply _validate_branch_ok. split; [|exact H].
    destruct k; reflexivity.
Qed.

Lemma C9_condition_not_cross_checked_witness :
  (_expect_directive_kw (U "#  if defined(A)") = Ok (branch_name Kif)
   /\ condition_rule Kif (U "B && C") = true
   /\ _validate_branch Kif (Some (U "B && C")) (Some []) (Some (U "#  if defined(A)"))
      = Ok (mkBranch Kif (U "B && C") [] (U "#  if defined(A)")))
  /\ (condition_rule Kifndef (U " FOO ") = true
      /\ _validate_branch Kifndef (Some (U " FOO ")) (Some [TextBlock (U "x")])
           (Some (U "#ifndef BAR || BAZ"))
         = Ok (mkBranch Kifndef (U " FOO ") [TextBlock (U "x")]
                 (U "#ifndef BAR || BAZ"))).
Proof.
  split.
  - split; [reflexivity|]. split; [reflexivity|].
    exact (proj1 C9_condition_not_cross_checked Kif (U "B && C") []
             (U "#  if defined(A)") eq_refl eq_refl).
  - split; [reflexivity|].
    exact (proj1 (proj2 C9_condition_not_cross_checked)
             Kifndef (U " FOO ") [TextBlock (U "x")] (U "BAR || BAZ") eq_refl).
Defined.

End BranchClaims.

(* ================================================================== *)
(** * ConditionalGroup *)
(* ================================================================== *)

Section Loops.
Variables (A : Type) (f : A -> result unit).

Lemma for_each_app (a b : list A) :
  for_each f (a ++ b) = do_ for_each f a; for_each f b.
Proof.
  induction a as [|x a IH]; simpl; [reflexivity|].
  destruct (f x) as [[]|e]; simpl; [exact IH | reflexivity].
Qed.

Lemma for_each_ok (l : list A) :
  for_each f l = Ok tt <-> forall x, In x l -> f x = Ok tt.
Proof.
  induction l as [|x l IH]; simpl.
  - split; [intros _ y [] | reflexivity].
  - destruct (f x) as [[]|e] eqn:E; simpl.
    + rewrite IH. split.
      * intros H y [<-|Hy]; auto.
      * intros H y Hy. apply H. right. exact Hy.
    + split; [discriminate|]. intros H.
      rewrite <- E. apply H. left. reflexivity.
Qed.


End Loops.

Lemma for_each_map A B (h : A -> B) (f : B -> result unit) (l : list A) :
  for_each f (map h l) = for_each (fun a => f (h a)) l.
Proof.
  induction l as [|x l IH]; simpl; [reflexivity|]. rewrite IH. reflexivity.
Qed.


Section Walk.

(** The keyword of [_walk] is the leading run of non-whitespace characters
    after the ['#']: the [IndexError] of [split(...)[0]] cannot happen. *)
Lemma _walk_kw_eq (raw s0 : str) :
  _strip_hash_prefix raw = Ok s0 ->
  _walk_kw raw
  = Ok (take_while (fun c => negb (isspace c)) (lstrip (slice_from_1 s0))).
Proof.
  intros H. unfold _walk_kw. rewrite H. cbn [bind].
  destruct (lstrip (slice_from_1 s0)) as [|c t] eqn:E; [reflexivity|].
  pose proof (lstrip_head _ E) as Hc.
  unfold split_None_1_head, lstrip. cbn. rewrite Hc. cbn. rewrite Hc.
  reflexivity.
Qed.

Lemma _walk_kw_err (raw : str) e :
  _walk_kw raw = Err e ->
  e = RawFormatError_missing_hash raw /\ is_ok (_strip_hash_prefix raw) = false.
Proof.
  destruct (_strip_hash_prefix raw) as [s0|e'] eqn:H.
  - rewrite (_walk_kw_eq _ H). discriminate.
  - unfold _walk_kw. rewrite H. simpl. unfold _strip_hash_prefix in H.
    destruct (negb (startswith (lstrip raw) 35)); split; congruence.
Qed.

Lemma conditional_keyword_shape (kw : str) :
  In kw conditional_keywords ->
  exists c t, kw = c :: t /\ is_ident_start c = true
              /\ forallb is_ident_char t = true.
Proof.
  intros H. vm_compute in H.
  repeat (destruct H as [<-|H]; [eexists _, _; repeat split; reflexivity|]).
  destruct H.
Qed.

(** A leading non-whitespace run made of identifier characters is also the
    leading identifier run. *)
Lemma nonspace_run_is_ident_prefix (s t : str) c :
  take_while (fun c => negb (isspace c)) s = c :: t ->
  is_ident_start c = true -> forallb is_ident_char t = true ->
  _C_IDENT_PREFIX_match s = Some (c :: t).
Proof.
  intros T Hc Ht.
  pose proof (take_drop (fun c => negb (isspace c)) s) as TD. rewrite T in TD.
  rewrite <- TD. simpl. rewrite Hc. f_equal. f_equal.
  apply take_while_app_stop; [exact Ht|].
  destruct (drop_while (fun c => negb (isspace c)) s) as [|x d] eqn:D; [exact I|].
  apply drop_while_head in D. apply negb_false_iff in D.
  apply space_not_ident_char, D.
Qed.

(** When [_walk] finds a conditional keyword, [_expect_directive] extracts
    the same keyword. *)
Lemma _walk_kw_keyword_is_expect_kw (raw kw : str) :
  _walk_kw raw = Ok kw -> In kw conditional_keywords ->
  _expect_directive_kw raw = Ok kw.
Proof.
  intros W K. destruct (_strip_hash_prefix raw) as [s0|e] eqn:H.
  - rewrite (_walk_kw_eq _ H) in W. injection W as W.
    destruct (conditional_keyword_shape K) as (c & t & -> & Hc & Ht).
    unfold _expect_directive_kw. rewrite H. cbn [bind].
    rewrite (nonspace_run_is_ident_prefix _ W Hc Ht). reflexivity.
  - unfold _walk_kw in W. rewrite H in W. discriminate.
Qed.

Lemma directive_name_not_conditional (k : DirectiveKind) :
  ~ In (directive_name k) conditional_keywords.
Proof.
  destruct k; vm_compute; intuition discriminate.
Qed.

Lemma _walk_node_directive (k : DirectiveKind) (r kw : str) :
  _walk_kw r = Ok kw ->
  _walk_node (DirectiveNode k r)
  = if str_in kw conditional_keywords then Err (IllegalNestedDirectiveError r)
    else Ok tt.
Proof. intros H. cbn [_walk_node]. rewrite H. reflexivity. Qed.


(** The validator, with its successive walks read as one loop over the
    body slots. *)
Lemma _validate_group_eq (g : ConditionalGroup) :
  _validate_group g =
    if negb (is_opening (kind (entry g)))
    then Err (EntryKindError (kind (entry g)))
    else
      do_ match elifs g with
          | Some bs =>
              for_each_enum
                (fun i b => if negb (is_elif (kind b))
                            then Err (HeterogeneousElifError i (kind b))
                            else Ok tt)
                0%nat bs
          | None => Ok tt
          end;
      do_ for_each _walk (body_slots g);
      Ok g.
Proof.
  unfold _validate_group, body_slots.
  destruct (negb (is_opening (kind (entry g)))); [reflexivity|].
  match goal with |- bind ?c _ = _ => destruct c as [[]|e] end;
    [cbn [bind] | reflexivity].
  cbn [for_each].
  destruct (_walk (body (entry g))) as [[]|e]; [cbn [bind] | reflexivity].
  rewrite for_each_app.
  assert (E : match elifs g with
              | Some ((_ :: _) as bs) => for_each (fun b => _walk (body b)) bs
              | _ => Ok tt
              end
              = for_each _walk
                  match elifs g with
                  | Some bs => map (@body Node) bs
                  | None => []
                  end).
  { destruct (elifs g) as [[|b bs]|]; try reflexivity.
    rewrite for_each_map. reflexivity. }
  rewrite E.
  match goal with |- bind ?c _ = _ => destruct c as [[]|e] end;
    [cbn [bind] | reflexivity].
  destruct (else_body g) as [l|]; simpl; [|reflexivity].
  destruct (_walk l) as [[]|e]; reflexivity.
Qed.

Lemma _validate_group_ok (g g' : ConditionalGroup) :
  _validate_group g = Ok g' ->
  g' = g /\ is_opening (kind (entry g)) = true
  /\ forall slot, In slot (body_slots g) -> _walk slot = Ok tt.
Proof.
  rewrite _validate_group_eq.
  destruct (is_opening (kind (entry g))); cbn [negb]; [|discriminate].
  intros H. apply bind_ok in H as ([] & _ & H).
  apply bind_ok in H as ([] & W & H).
  split; [congruence|]. split; [reflexivity|].
  exact (proj1 (for_each_ok _walk (body_slots g)) W).
Qed.

End Walk.

Section GroupClaims.


Lemma elif_check_err (bs : list ConditionalBranch) e : forall i0,
  for_each_enum
    (fun i b => if negb (is_elif (kind b))
                then Err (HeterogeneousElifError i (kind b))
                else Ok tt)
    i0 bs = Err e ->
  exists i k, e = HeterogeneousElifError i k.
Proof.
  induction bs as [|b bs IH]; intros i0; simpl; [discriminate|].
  destruct (is_elif (kind b)); simpl; [apply IH|].
  intros H. injection H as <-. eauto.
Qed.





(** C1.  A [DirectiveNode] child whose raw carries a conditional keyword,
    in any body slot and whatever its declared kind.  The keyword is the one
    of section 4.2, the identifier run that [_expect_directive] extracts.
    The group validator rejects the child of the claim's example: a group
    whose [entry.body] holds [DirectiveNode(raw="#else")], of any kind,
    fails with [IllegalNestedDirectiveError].  It does not reject every such
    child: "#if(X)" in [entry.body], "#else//x" in the body of an elif and
    "#endif/*x*/" in [else_body] all have a conditional keyword, and the
    groups that hold them are accepted.  So it is not true that a child
    with a conditional keyword always makes the validator fail. *)
Theorem C1_conditional_keyword_child_accepted :
  (forall k,
     _validate_group
       (mkGroup (mkBranch Kif (U "X") [DirectiveNode k (U "#else")] (U "#if X"))
          None None None endif_raw_default)
     = Err (IllegalNestedDirectiveError (U "#else")))
  /\ (let d1 := DirectiveNode Kdefine (U "#if(X)") in
      let d2 := DirectiveNode Kinclude (U "#else//x") in
      let d3 := DirectiveNode Kpragma (U "#endif/*x*/") in
      let g := mkGroup (mkBranch Kif (U "X") [d1] (U "#if X"))
                 (Some [mkBranch Kelif (U "Y") [d2] (U "#elif Y")])
                 (Some [d3]) (Some (U "#else")) endif_raw_default in
      body_slots g = [[d1]; [d2]; [d3]]
      /\ _expect_directive_kw (U "#if(X)") = Ok (U "if")
      /\ _expect_directive_kw (U "#else//x") = Ok (U "else")
      /\ _expect_directive_kw (U "#endif/*x*/") = Ok (U "endif")
      /\ In (U "if") conditional_keywords
      /\ In (U "else") conditional_keywords
      /\ In (U "endif") conditional_keywords
      /\ _validate_group g = Ok g)
  /\ ~ (forall g slot k r kw,
          In slot (body_slots g) -> In (DirectiveNode k r) slot ->
          _expect_directive_kw r = Ok kw -> In kw conditional_keywords ->
          exists e, _validate_group g = Err e).
Proof.
  split; [intros k; reflexivity|]. split.
  - repeat split; try reflexivity.
    + left; reflexivity.
    + do 4 right; left; reflexivity.
    + do 5 right; left; reflexivity.
  - intros H.
    destruct (H (mkGroup
                   (mkBranch Kif (U "X") [DirectiveNode Kdefine (U "#if(X)")]
                      (U "#if X"))
                   None None None endif_raw_default)
                [DirectiveNode Kdefine (U "#if(X)")] Kdefine (U "#if(X)") (U "if")
                (or_introl eq_refl) (or_introl eq_refl) eq_refl
                (or_introl eq_refl)) as [e E].
    discriminate.
Qed.

(** C2.  The keyword [_walk] extracts is not the keyword of section 4.2.
    [_walk] takes the first whitespace-delimited field after the ['#'],
    [_expect_directive] the longest leading identifier run.  They differ as
    soon as the identifier is followed by a character that is neither an
    identifier character nor whitespace: on "#include<stdio.h>" (a valid
    include), and on "#else//x", where [_expect_directive] extracts the
    conditional keyword "else", [_walk] extracts "else//x", and a group with
    that child in its entry body constructs. *)
Theorem C2_walk_keyword_is_not_expect_keyword :
  _walk_kw (U "#else//x") = Ok (U "else//x")
  /\ _expect_directive_kw (U "#else//x") = Ok (U "else")
  /\ In (U "else") conditional_keywords
  /\ (let g := mkGroup
                 (mkBranch Kif (U "X") [DirectiveNode Kinclude (U "#else//x")]
                    (U "#if X"))
                 None None None endif_raw_default in
      _validate_group g = Ok g)
  /\ _walk_kw (U "#include<stdio.h>") = Ok (U "include<stdio.h>")
  /\ _expect_directive_kw (U "#include<stdio.h>") = Ok (U "include").
Proof.
  repeat split; try reflexivity.
  do 4 right; left; reflexivity.
Qed.

(** C6.  A group whose entry has kind [elif] does not construct, whatever
    [elifs], [else_body], [else_raw] and [endif_raw] are; a group that
    constructs has an entry of kind [if], [ifdef] or [ifndef]. *)
Theorem C6_elif_entry_rejected :
  (forall e el eb er en,
     kind e = Kelif ->
     _validate_group (mkGroup e el eb er en) = Err (EntryKindError Kelif))
  /\ (forall g g',
        _validate_group g = Ok g' ->
        In (kind (entry g)) [Kif; Kifdef; Kifndef]).
Proof.
  split.
  - intros e el eb er en H. unfold _validate_group. cbn [entry].
    rewrite H. reflexivity.
  - intros g g' H. apply _validate_group_ok in H as (_ & H & _).
    destruct (kind (entry g)); simpl; auto. discriminate.
Qed.

Lemma C6_elif_entry_rejected_witness :
  let g := mkGroup (mkBranch Kifndef (U "H") [] (U "#ifndef H"))
             None None None endif_raw_default in
  (kind (mkBranch Kelif (U "X") ([] : list Node) (U "#elif X")) = Kelif
   /\ _validate_group
        (mkGroup (mkBranch Kelif (U "X") [] (U "#elif X"))
           (Some []) (Some [TextBlock (U "t")]) (Some (U "#else")) (U "#endif"))
      = Err (EntryKindError Kelif))
  /\ (_validate_group g = Ok g /\ In (kind (entry g)) [Kif; Kifdef; Kifndef]).
Proof.
  intros g. split.
  - split; [reflexivity|].
    exact (proj1 C6_elif_entry_rejected
             (mkBranch Kelif (U "X") [] (U "#elif X"))
             (Some []) (Some [TextBlock (U "t")]) (Some (U "#else")) (U "#endif")
             eq_refl).
  - split; [reflexivity|].
    exact (proj2 C6_elif_entry_rejected g g eq_refl).
Defined.

Lemma valid_directive_walks (k : DirectiveKind) (r : str) (n : Node) :
  _validate_directive k (Some r) = Ok n -> _walk_node n = Ok tt.
Proof.
  intros H. apply _validate_directive_ok in H as [-> H].
  destruct (_walk_kw r) as [kw|e] eqn:W.
  - rewrite (@_walk_node_directive k r kw W).
    destruct (str_in kw conditional_keywords) eqn:K; [|reflexivity].
    exfalso. apply str_in_In in K.
    pose proof (_walk_kw_keyword_is_expect_kw _ W K) as X.
    rewrite H in X. injection X as <-.
    exact (directive_name_not_conditional k K).
  - exfalso. apply _walk_kw_err in W as [_ W].
    unfold _expect_directive_kw in H.
    destruct (_strip_hash_prefix r); discriminate.
Qed.

Lemma valid_directives_walk (nodes : list Node) :
  (forall k r, In (DirectiveNode k r) nodes ->
               exists n, _validate_directive k (Some r) = Ok n) ->
  _walk nodes = Ok tt.
Proof.
  intros H. apply for_each_ok. intros [c|k r|g] Hin; try reflexivity.
  destruct (H k r Hin) as [n V].
  pose proof (proj1 (_validate_directive_ok k r n) V) as [-> _].
  exact (valid_directive_walks _ _ V).
Qed.

(** C8.  On a [DirectiveNode] that satisfies its own validator the
    conditional-keyword test of [_walk] never fires.  (1) [_walk] accepts
    such a node.  (2) [_walk] accepts every sequence whose [DirectiveNode]s
    all satisfy their validator.  (3) When all direct [DirectiveNode]
    children of the body slots of a group satisfy their validator, the group
    validator never fails with [IllegalNestedDirectiveError]. *)
Theorem C8_valid_directive_never_illegal :
  (forall k r n, _validate_directive k (Some r) = Ok n -> _walk_node n = Ok tt)
  /\ (forall nodes,
        (forall k r, In (DirectiveNode k r) nodes ->
                     exists n, _validate_directive k (Some r) = Ok n) ->
        _walk nodes = Ok tt)
  /\ (forall g e,
        directive_children
          (fun k r => exists n, _validate_directive k (Some r) = Ok n) g ->
        _validate_group g = Err e ->
        forall r, e <> IllegalNestedDirectiveError r).
Proof.
  split; [exact valid_directive_walks|]. split; [exact valid_directives_walk|].
  intros g e Hc V r0 ->. rewrite _validate_group_eq in V.
  destruct (negb (is_opening (kind (entry g)))); [discriminate|].
  assert (W : for_each _walk (body_slots g) = Ok tt).
  { apply for_each_ok. intros slot Hs. apply valid_directives_walk.
    intros k r Hn. exact (Hc slot k r Hs Hn). }
  rewrite W in V.
  destruct (elifs g) as [bs|]; [|discriminate].
  match type of V with bind ?c _ = _ => destruct c as [[]|e] eqn:E end;
    [discriminate|].
  apply elif_check_err in E as (i & k & ->). discriminate.
Qed.

Lemma C8_valid_directive_never_illegal_witness :
  let d := DirectiveNode Kinclude (U "#include<stdio.h>") in
  let g := mkGroup (mkBranch Kif (U "X") [d] (U "#if X"))
             (Some [mkBranch Kifdef (U "Y") [] (U "#ifdef Y")])
             None None endif_raw_default in
  (_validate_directive Kinclude (Some (U "#include<stdio.h>")) = Ok d
   /\ _walk_node d = Ok tt)
  /\ _walk [TextBlock (U "t"); d] = Ok tt
  /\ (_validate_group g = Err (HeterogeneousElifError 0 Kifdef)
      /\ forall r, HeterogeneousElifError 0 Kifdef <> IllegalNestedDirectiveError r).
Proof.
  intros d g.
  assert (V : forall k r, In (DirectiveNode k r) [TextBlock (U "t"); d] ->
                          exists n, _validate_directive k (Some r) = Ok n).
  { intros k r [H|[H|[]]]; [discriminate|].
    injection H as <- <-. exists d. reflexivity. }
  assert (Hc : directive_children
                 (fun k r => exists n, _validate_directive k (Some r) = Ok n) g).
  { intros slot k r Hslot Hnode.
    destruct Hslot as [<-|[<-|[]]].
    - apply V. right. exact Hnode.
    - destruct Hnode. }
  split; [|split].
  - split; [reflexivity|].
    exact (proj1 C8_valid_directive_never_illegal Kinclude
             (U "#include<stdio.h>") d eq_refl).
  - exact (proj1 (proj2 C8_valid_directive_never_illegal) _ V).
  - split; [reflexivity|].
    exact (proj2 (proj2 C8_valid_directive_never_illegal) g _ Hc eq_refl).
Defined.

(** C10.  [else_raw] and [endif_raw] are never validated.  The outcome of
    the group validator does not depend on them: with other values of the
    two fields it fails with the same error or succeeds likewise.  So a
    group that constructs still constructs with any [endif_raw] (the empty
    string, text without "#endif") and any [else_raw], present or absent,
    whether or not [else_body] is present. *)
Theorem C10_else_and_endif_raw_unchecked :
  (forall g er en,
     _validate_group (with_raws g er en)
     = match _validate_group g with
       | Ok _ => Ok (with_raws g er en)
       | Err e => Err e
       end)
  /\ (forall g g' er en,
        _validate_group g = Ok g' ->
        _validate_group (with_raws g er en) = Ok (with_raws g er en))
  /\ (let e := mkBranch Kif (U "X") [TextBlock (U "a")] (U "#if X") in
      _validate_group (mkGroup e None None (Some (U "#else")) (U ""))
        = Ok (mkGroup e None None (Some (U "#else")) (U ""))
      /\ _validate_group (mkGroup e None (Some [TextBlock (U "b")]) None (U "done"))
        = Ok (mkGroup e None (Some [TextBlock (U "b")]) None (U "done"))
      /\ _validate_group (mkGroup e None None (Some (U "not a directive")) (U "#if Y"))
        = Ok (mkGroup e None None (Some (U "not a directive")) (U "#if Y"))).
Proof.
  assert (P : forall g er en,
     _validate_group (with_raws g er en)
     = match _validate_group g with
       | Ok _ => Ok (with_raws g er en)
       | Err e => Err e
       end).
  { intros g er en. rewrite !_validate_group_eq.
    unfold with_raws, body_slots. cbn [entry elifs else_body].
    destruct (negb (is_opening (kind (entry g)))); [reflexivity|].
    match goal with |- bind ?c _ = _ => destruct c as [[]|e] end;
      [cbn [bind] | reflexivity].
    match goal with |- bind ?c _ = _ => destruct c as [[]|e] end; reflexivity. }
  split; [exact P|]. split.
  - intros g g' er en H. rewrite P, H. reflexivity.
  - repeat split; reflexivity.
Qed.

Lemma C10_else_and_endif_raw_unchecked_witness :
  let g := mkGroup (mkBranch Kifndef (U "GUARD_H") [] (U "#ifndef GUARD_H"))
             None None None endif_raw_default in
  _validate_group g = Ok g
  /\ _validate_group (with_raws g (Some (U "stray")) []) = Ok (with_raws g (Some (U "stray")) []).
Proof.
  intros g. split; [reflexivity|].
  exact (proj1 (proj2 C10_else_and_endif_raw_unchecked) g g
           (Some (U "stray")) [] eq_refl).
Defined.

End GroupClaims.

(* ================================================================== *)
(** * FileRoot *)
(* ================================================================== *)

Section Root.

Lemma check_items_first_none (l : list (option Node)) :
  In None l ->
  forall i0, exists i,
    nth_error l i = Some None
    /\ (forall j, (j < i)%nat -> nth_error l j <> Some None)
    /\ check_items i0 l = Err (NullItemError (i0 + i)).
Proof.
  induction l as [|[n|] l IH]; intros H i0.
  - destruct H.
  - destruct H as [H|H]; [discriminate|].
    destruct (IH H (S i0)) as (i & Hi & Hj & C).
    exists (S i). split; [exact Hi|]. split.
    + intros [|j] Lt; simpl; [discriminate | apply Hj; lia].
    + simpl. rewrite C. simpl. rewrite Nat.add_succ_r. reflexivity.
  - exists 0%nat. split; [reflexivity|]. split; [intros j Lt; lia|].
    simpl. rewrite Nat.add_0_r. reflexivity.
Qed.

Lemma check_items_no_none (l : list (option Node)) :
  ~ In None l ->
  exists ns, l = map Some ns /\ forall i0, check_items i0 l = Ok ns.
Proof.
  induction l as [|[n|] l IH]; intros H.
  - exists []. split; reflexivity.
  - destruct IH as (ns & -> & C); [intros X; apply H; right; exact X|].
    exists (n :: ns). split; [reflexivity|].
    intros i0. simpl. rewrite C. reflexivity.
  - exfalso. apply H. left. reflexivity.
Qed.

(** C7.  [FileRoot] construction fails with [EmptyPathError] when the path
    is null or empty after trimming, whatever the items (also for
    [items=[]]); with a path that is not blank it fails with [NullItemError]
    when some element of [items] is null, at the index of the first one;
    and with a path that is not blank and no null item it succeeds.
    [FileRoot(path="", items=[])] fails with [EmptyPathError],
    [FileRoot(path="a.h", items=[null])] with [NullItemError]. *)
Theorem C7_file_root_checks :
  (forall p its, strip p = [] -> _validate_root (Some p) its = Err EmptyPathError)
  /\ (forall its, _validate_root None its = Err EmptyPathError)
  /\ (forall p l,
        strip p <> [] -> In None l ->
        exists i,
          nth_error l i = Some None
          /\ (forall j, (j < i)%nat -> nth_error l j <> Some None)
          /\ _validate_root (Some p) (Some l) = Err (NullItemError i))
  /\ (forall p l,
        strip p <> [] -> ~ In None l ->
        exists ns, l = map Some ns
                   /\ _validate_root (Some p) (Some l) = Ok (mkRoot p ns))
  /\ _validate_root (Some (U "")) (Some []) = Err EmptyPathError
  /\ _validate_root (Some (U "  ")) (Some []) = Err EmptyPathError
  /\ _validate_root (Some (U "a.h")) (Some [None]) = Err (NullItemError 0).
Proof.
  split; [|split; [|split; [|split; [|repeat split; reflexivity]]]].
  - intros p its H. unfold _validate_root. rewrite H. reflexivity.
  - reflexivity.
  - intros p l Hp Hn. apply eqb_neq in Hp.
    destruct (check_items_first_none _ Hn 0%nat) as (i & Hi & Hj & C).
    exists i. split; [exact Hi|]. split; [exact Hj|].
    unfold _validate_root. rewrite Hp, C. reflexivity.
  - intros p l Hp Hn. apply eqb_neq in Hp.
    destruct (@check_items_no_none l Hn) as (ns & -> & C).
    exists ns. split; [reflexivity|].
    unfold _validate_root. rewrite Hp, C. reflexivity.
Qed.

Lemma C7_file_root_checks_witness :
  let l := [Some (TextBlock (U "x")); None; Some (TextBlock (U "y")); None] in
  let ns := [TextBlock (U "x"); DirectiveNode Kundef (U "#undef X")] in
  (strip [0x20; 0x09; 0xA0] = []
   /\ _validate_root (Some [0x20; 0x09; 0xA0]) (Some l) = Err EmptyPathError)
  /\ (strip (U " a.h ") <> [] /\ In None l
      /\ exists i,
           nth_error l i = Some None
           /\ (forall j, (j < i)%nat -> nth_error l j <> Some None)
           /\ _validate_root (Some (U " a.h ")) (Some l) = Err (NullItemError i))
  /\ (~ In None (map Some ns)
      /\ exists ns', map Some ns = map Some ns'
                     /\ _validate_root (Some (U " a.h ")) (Some (map Some ns))
                        = Ok (mkRoot (U " a.h ") ns')).
Proof.
  intros l ns.
  assert (Hp : strip (U " a.h ") <> []) by (vm_compute; discriminate).
  assert (Hn : In None l) by (right; left; reflexivity).
  assert (Hs : ~ In None (map Some ns))
    by (intros [H|[H|[]]]; discriminate).
  split; [|split].
  - split; [reflexivity|].
    exact (proj1 C7_file_root_checks [0x20; 0x09; 0xA0] (Some l) eq_refl).
  - split; [exact Hp|]. split; [exact Hn|].
    exact (proj1 (proj2 (proj2 C7_file_root_checks)) (U " a.h ") l Hp Hn).
  - split; [exact Hs|].
    exact (proj1 (proj2 (proj2 (proj2 C7_file_root_checks)))
             (U " a.h ") (map Some ns) Hp Hs).
Defined.

End Root.

(* ================================================================== *)
(** * Text regeneration *)
(* ================================================================== *)

Section RoundTrip.

(** C3.  Round trip on flat trees: the claim asks that [tostring], on a
    [FileRoot] made of [TextBlock]s and [DirectiveNode]s only, return the
    concatenation of each [content] and [raw] in order.  The code does not:
    [tostring] and its overloads have the body [pass], so every call returns
    [None], for the root as for its items, and on a flat root with text to
    reproduce the result is not that text. *)
Theorem C3_tostring_returns_nothing :
  (forall x, tostring x = None)
  /\ (let root := mkRoot (U "a.h")
                    [DirectiveNode Kdefine (U "#define X 1");
                     TextBlock (U "int x;")] in
      forallb is_flat (items root) = true
      /\ List.concat (map own_text (items root)) = U "#define X 1int x;"
      /\ tostring (OfRoot root) = None
      /\ tostring (OfNodes (items root)) = None
      /\ tostring (OfNodes (items root))
         <> Some (List.concat (map own_text (items root)))).
Proof.
  split.
  - intros [nodes|node|files|root]; reflexivity.
  - repeat split; try reflexivity. discriminate.
Qed.

End RoundTrip.

(* ================================================================== *)
(** * Further properties of models.py *)
(* ================================================================== *)

Section MoreStrings.

Lemma lstrip_split (s : str) :
  s = take_while isspace s ++ lstrip s
  /\ forallb isspace (take_while isspace s) = true.
Proof.
  split; [symmetry; apply take_drop | apply take_while_all].
Qed.

Lemma forallb_rev (p : N -> bool) (s : str) :
  forallb p s = true -> forallb p (rev s) = true.
Proof.
  rewrite !forallb_forall. intros H x Hx. apply H, in_rev, Hx.
Qed.

(** Whitespace around a non-empty run of identifier characters is what
    [strip] removes. *)
Lemma strip_padded_ident (ws1 ws2 s : str) :
  forallb isspace ws1 = true -> forallb isspace ws2 = true ->
  forallb is_ident_char s = true ->
  strip (ws1 ++ s ++ ws2) = s.
Proof.
  intros H1 H2 Hs. unfold strip. rewrite lstrip_app_space by assumption.
  destruct s as [|c t]; simpl app.
  - unfold lstrip, rstrip. apply drop_while_nil in H2. rewrite H2. reflexivity.
  - assert (L : lstrip (c :: t ++ ws2) = c :: t ++ ws2).
    { unfold lstrip. simpl. simpl in Hs. apply andb_true_iff in Hs as [Hc _].
      rewrite (ident_char_not_space _ Hc). reflexivity. }
    rewrite L. unfold rstrip.
    change (c :: t ++ ws2) with ((c :: t) ++ ws2).
    rewrite rev_app_distr, drop_while_app_all by (apply forallb_rev, H2).
    destruct (rev (c :: t)) as [|y l] eqn:R.
    + apply (f_equal (@rev N)) in R. rewrite rev_involutive in R. discriminate.
    + assert (Hy : is_ident_char y = true).
      { rewrite forallb_forall in Hs. apply Hs, in_rev. rewrite R. left.
        reflexivity. }
      simpl. rewrite (ident_char_not_space _ Hy). rewrite <- R.
      apply rev_involutive.
Qed.

Lemma is_c_identifier_chars (s : str) :
  is_c_identifier s = true -> forallb is_ident_char s = true.
Proof.
  destruct s as [|c t]; simpl; [discriminate|].
  intros H. apply andb_true_iff in H as [Hc Ht].
  rewrite (ident_start_char _ Hc), Ht. reflexivity.
Qed.

Lemma is_c_identifier_all (s : str) :
  is_c_identifier s = true ->
  forall c, In c s -> is_ident_char c = true.
Proof.
  intros H. apply is_c_identifier_chars in H.
  rewrite forallb_forall in H. exact H.
Qed.

End MoreStrings.

Section RawFormat.

(** X1.  [_strip_hash_prefix] only removes leading whitespace: on success the raw
    is whitespace followed by the result, the result starts with ['#'], and
    stripping it again changes nothing.  It fails, with the raw in the
    error, exactly when the first non-whitespace character is not ['#'];
    a blank raw is such a case. *)
Theorem _strip_hash_prefix_behaviour (raw : str) :
  (forall s,
     _strip_hash_prefix raw = Ok s ->
     (exists ws t, raw = ws ++ s /\ forallb isspace ws = true /\ s = 0x23 :: t)
     /\ _strip_hash_prefix s = Ok s)
  /\ (forall e,
        _strip_hash_prefix raw = Err e ->
        e = RawFormatError_missing_hash raw
        /\ forall t, lstrip raw <> 0x23 :: t)
  /\ (forallb isspace raw = true ->
      _strip_hash_prefix raw = Err (RawFormatError_missing_hash raw)).
Proof.
  split; [|split].
  - intros s H. apply _strip_hash_prefix_ok in H as (-> & t & E). split.
    + exists (take_while isspace raw), t.
      destruct (lstrip_split raw) as [D W]. auto.
    + apply _strip_hash_prefix_ok. rewrite lstrip_idem. eauto.
  - intros e H. unfold _strip_hash_prefix in H.
    destruct (startswith (lstrip raw) 35) eqn:S; simpl in H; [discriminate|].
    split; [congruence|]. intros t E. rewrite E in S. discriminate.
  - intros H. unfold _strip_hash_prefix, lstrip.
    apply drop_while_nil in H. rewrite H. reflexivity.
Qed.

Lemma _strip_hash_prefix_behaviour_witness :
  ((exists ws t, U "  # if X" = ws ++ U "# if X"
                 /\ forallb isspace ws = true /\ U "# if X" = 0x23 :: t)
   /\ _strip_hash_prefix (U "# if X") = Ok (U "# if X"))
  /\ (RawFormatError_missing_hash (U "else") = RawFormatError_missing_hash (U "else")
      /\ forall t, lstrip (U "else") <> 0x23 :: t)
  /\ _strip_hash_prefix (U "   ") = Err (RawFormatError_missing_hash (U "   ")).
Proof.
  split; [|split].
  - exact (proj1 (_strip_hash_prefix_behaviour (U "  # if X")) (U "# if X") eq_refl).
  - exact (proj1 (proj2 (_strip_hash_prefix_behaviour (U "else")))
             (RawFormatError_missing_hash (U "else")) eq_refl).
  - exact (proj2 (proj2 (_strip_hash_prefix_behaviour (U "   "))) eq_refl).
Defined.

Lemma expect_kw_of_format (ws1 ws2 name rest : str) :
  forallb isspace ws1 = true -> forallb isspace ws2 = true ->
  is_c_identifier name = true -> stops_identifier rest = true ->
  _expect_directive_kw (ws1 ++ 0x23 :: ws2 ++ name ++ rest) = Ok name.
Proof.
  intros H1 H2 Hn Hr.
  rewrite (@_expect_directive_kw_spaces ws1 ws2 (name ++ rest) H1 H2).
  destruct name as [|c t]; [discriminate|].
  simpl in Hn. apply andb_true_iff in Hn as [Hc Ht].
  unfold _expect_directive_kw, _strip_hash_prefix. simpl.
  unfold lstrip. simpl.
  rewrite (ident_char_not_space _ (ident_start_char _ Hc)). simpl. rewrite Hc.
  rewrite take_while_app_stop; [reflexivity | exact Ht |].
  destruct rest as [|x rest]; [exact I|].
  simpl in Hr. apply negb_true_iff in Hr. exact Hr.
Qed.

Lemma format_of_expect_kw (raw name : str) :
  _expect_directive_kw raw = Ok name -> name <> [] ->
  exists ws1 ws2 rest,
    raw = ws1 ++ 0x23 :: ws2 ++ name ++ rest
    /\ forallb isspace ws1 = true /\ forallb isspace ws2 = true
    /\ is_c_identifier name = true /\ stops_identifier rest = true.
Proof.
  unfold _expect_directive_kw. intros H Hne.
  apply bind_ok in H as (s0 & S & H).
  apply _strip_hash_prefix_ok in S as (-> & t & E).
  rewrite E in H. unfold slice_from_1 in H. simpl in H.
  destruct (lstrip_split raw) as [D1 W1]. rewrite E in D1.
  destruct (lstrip_split t) as [D2 W2].
  destruct (lstrip t) as [|c u] eqn:L; simpl in H; [congruence|].
  destruct (is_ident_start c) eqn:Hc; [|congruence].
  injection H as <-.
  exists (take_while isspace raw), (take_while isspace t),
         (drop_while is_ident_char u).
  split; [|split; [exact W1|split; [exact W2|split]]].
  - rewrite D1 at 1. f_equal. f_equal. rewrite D2 at 1. f_equal.
    simpl. f_equal. symmetry. apply take_drop.
  - simpl. rewrite Hc, take_while_all. reflexivity.
  - unfold stops_identifier.
    destruct (drop_while is_ident_char u) as [|x d] eqn:Dr; [reflexivity|].
    apply drop_while_head in Dr. rewrite Dr. reflexivity.
Qed.

Lemma directive_name_identifier (k : DirectiveKind) :
  is_c_identifier (directive_name k) = true.
Proof. destruct k; reflexivity. Qed.

Lemma branch_name_identifier (k : BranchKind) :
  is_c_identifier (branch_name k) = true.
Proof. destruct k; reflexivity. Qed.

(** X2.  The raws a keyword check accepts.  For an identifier [name],
    [_expect_directive raw name] succeeds exactly when [raw] is optional
    whitespace, ['#'], optional whitespace, [name], and then nothing or
    text starting with a character outside [[A-Za-z0-9_]].  Accordingly a
    [DirectiveNode] of kind [k] validates exactly on the raws of that form
    for the name of [k], so "#include<a.h>" is an include and "#definex" is
    not a define. *)
Theorem accepted_raw_format :
  (forall raw name,
     is_c_identifier name = true ->
     (_expect_directive raw name = Ok tt <->
      exists ws1 ws2 rest,
        raw = ws1 ++ 0x23 :: ws2 ++ name ++ rest
        /\ forallb isspace ws1 = true /\ forallb isspace ws2 = true
        /\ stops_identifier rest = true))
  /\ (forall k raw,
        _validate_directive k (Some raw) = Ok (DirectiveNode k raw) <->
        exists ws1 ws2 rest,
          raw = ws1 ++ 0x23 :: ws2 ++ directive_name k ++ rest
          /\ forallb isspace ws1 = true /\ forallb isspace ws2 = true
          /\ stops_identifier rest = true).
Proof.
  assert (G : forall raw name,
     is_c_identifier name = true ->
     (_expect_directive raw name = Ok tt <->
      exists ws1 ws2 rest,
        raw = ws1 ++ 0x23 :: ws2 ++ name ++ rest
        /\ forallb isspace ws1 = true /\ forallb isspace ws2 = true
        /\ stops_identifier rest = true)).
  { intros raw name Hn. rewrite _expect_directive_ok. split.
    - intros H. apply format_of_expect_kw in H
        as (ws1 & ws2 & rest & E & H1 & H2 & _ & Hr).
      + exists ws1, ws2, rest. auto.
      + apply is_c_identifier_nonempty, Hn.
    - intros (ws1 & ws2 & rest & -> & H1 & H2 & Hr).
      apply expect_kw_of_format; assumption. }
  split; [exact G|].
  intros k raw. rewrite <- (G raw _ (directive_name_identifier k)).
  rewrite _validate_directive_ok, _expect_directive_ok. tauto.
Qed.

Lemma accepted_raw_format_witness :
  is_c_identifier (U "pragma") = true
  /\ _expect_directive (U " #  pragma(once)") (U "pragma") = Ok tt.
Proof.
  split; [reflexivity|].
  apply (proj2 (proj1 accepted_raw_format (U " #  pragma(once)") (U "pragma")
                  eq_refl)).
  exists (U " "), (U "  "), (U "(once)"). repeat split; reflexivity.
Defined.

Lemma _validate_branch_kw k cond b r (br : ConditionalBranch) :
  _validate_branch k cond b (Some r) = Ok br ->
  _expect_directive_kw r = Ok (branch_name k).
Proof.
  unfold _validate_branch. destruct (eqb (strip r) []); [discriminate|].
  intros H. apply bind_ok in H as ([] & H & _). apply _expect_directive_ok, H.
Qed.

Lemma raw_check_mismatch (r kw expected : str) :
  _expect_directive_kw r = Ok kw -> kw <> expected ->
  eqb (strip r) [] = false
  /\ _expect_directive r expected
     = Err (RawFormatError_keyword_mismatch expected kw r).
Proof.
  intros H Hne. split; [exact (_expect_directive_kw_not_blank _ H)|].
  unfold _expect_directive. rewrite H. cbn [bind].
  apply eqb_neq in Hne. rewrite Hne. reflexivity.
Qed.

Lemma names_differ :
  (forall k1 k2, k2 <> k1 -> directive_name k1 <> directive_name k2)
  /\ (forall k1 k2, k2 <> k1 -> branch_name k1 <> branch_name k2)
  /\ (forall k kb, directive_name k <> branch_name kb).
Proof.
  split; [|split].
  - intros k1 k2 H E. apply H.
    destruct k1, k2; try reflexivity; vm_compute in E; discriminate.
  - intros k1 k2 H E. apply H.
    destruct k1, k2; try reflexivity; vm_compute in E; discriminate.
  - intros k kb E. destruct k, kb; vm_compute in E; discriminate.
Qed.

(** X3.  A raw determines the kind.  A raw that validates for one kind fails for
    every other kind with a keyword mismatch that names both keywords: a
    [DirectiveNode] raw for the other directive kinds and for all branch
    kinds, a branch raw for the other branch kinds and for all directive
    kinds, whatever condition and body are given. *)
Theorem raw_determines_kind :
  (forall k1 k2 r n,
     _validate_directive k1 (Some r) = Ok n -> k2 <> k1 ->
     _validate_directive k2 (Some r)
     = Err (RawFormatError_keyword_mismatch
              (directive_name k2) (directive_name k1) r))
  /\ (forall k1 k2 c1 b1 r x c2 b2,
        _validate_branch k1 c1 b1 (Some r) = Ok x -> k2 <> k1 ->
        _validate_branch k2 c2 b2 (Some r)
        = Err (RawFormatError_keyword_mismatch
                 (branch_name k2) (branch_name k1) r))
  /\ (forall k r n kb c b,
        _validate_directive k (Some r) = Ok n ->
        _validate_branch kb c b (Some r)
        = Err (RawFormatError_keyword_mismatch
                 (branch_name kb) (directive_name k) r))
  /\ (forall kb c b r x k,
        _validate_branch kb c b (Some r) = Ok x ->
        _validate_directive k (Some r)
        = Err (RawFormatError_keyword_mismatch
                 (directive_name k) (branch_name kb) r)).
Proof.
  destruct names_differ as (Nd & Nb & Ndb).
  split; [|split; [|split]].
  - intros k1 k2 r n H Hk. apply _validate_directive_ok in H as [_ H].
    destruct (raw_check_mismatch _ H (Nd _ _ Hk)) as [B M].
    unfold _validate_directive. rewrite B, M. reflexivity.
  - intros k1 k2 c1 b1 r x c2 b2 H Hk. apply _validate_branch_kw in H.
    destruct (raw_check_mismatch _ H (Nb _ _ Hk)) as [B M].
    unfold _validate_branch. rewrite B, M. reflexivity.
  - intros k r n kb c b H. apply _validate_directive_ok in H as [_ H].
    destruct (raw_check_mismatch _ H (Ndb k kb)) as [B M].
    unfold _validate_branch. rewrite B, M. reflexivity.
  - intros kb c b r x k H. apply _validate_branch_kw in H.
    assert (Hne : branch_name kb <> directive_name k)
      by (intros E; exact (Ndb k kb (eq_sym E))).
    destruct (raw_check_mismatch _ H Hne) as [B M].
    unfold _validate_directive. rewrite B, M. reflexivity.
Qed.

Lemma raw_determines_kind_witness :
  _validate_directive Kundef (Some (U "#define X 1"))
    = Err (RawFormatError_keyword_mismatch (U "undef") (U "define") (U "#define X 1"))
  /\ _validate_branch Kif (Some (U "A")) (Some []) (Some (U "#ifdef A"))
     = Err (RawFormatError_keyword_mismatch (U "if") (U "ifdef") (U "#ifdef A"))
  /\ _validate_branch Kif None None (Some (U "#include <a.h>"))
     = Err (RawFormatError_keyword_mismatch (U "if") (U "include") (U "#include <a.h>"))
  /\ _validate_directive Kerror (Some (U "# elif B"))
     = Err (RawFormatError_keyword_mismatch (U "error") (U "elif") (U "# elif B")).
Proof.
  assert (D1 : Kundef <> Kdefine) by discriminate.
  assert (D2 : Kif <> Kifdef) by discriminate.
  split; [|split; [|split]].
  - exact (proj1 raw_determines_kind Kdefine Kundef (U "#define X 1") _
             eq_refl D1).
  - exact (proj1 (proj2 raw_determines_kind) Kifdef Kif (Some (U "A")) (Some [])
             (U "#ifdef A") _ (Some (U "A")) (Some []) eq_refl D2).
  - exact (proj1 (proj2 (proj2 raw_determines_kind)) Kinclude
             (U "#include <a.h>") _ Kif None None eq_refl).
  - exact (proj2 (proj2 (proj2 raw_determines_kind)) Kelif (Some (U "B"))
             (Some []) (U "# elif B") _ Kerror eq_refl).
Defined.

End RawFormat.

Section ValidatorErrors.

(** X4.  The failures of [DirectiveNode] construction, in the order of the
    checks.  A null, empty or all-whitespace raw is a
    [DirectiveRawEmptyError]; a raw whose first non-whitespace character is
    not ['#'] is a missing-hash error; a raw with nothing that starts an
    identifier after the ['#'] (as "#" or "# 1") is a keyword mismatch with
    the empty keyword.  This holds for every kind. *)
Theorem _validate_directive_errors (k : DirectiveKind) :
  _validate_directive k None = Err DirectiveRawEmptyError
  /\ (forall r, forallb isspace r = true ->
                _validate_directive k (Some r) = Err DirectiveRawEmptyError)
  /\ (forall r c t, lstrip r = c :: t -> c <> 0x23 ->
                    _validate_directive k (Some r)
                    = Err (RawFormatError_missing_hash r))
  /\ (forall r t, lstrip r = 0x23 :: t ->
                  _C_IDENT_PREFIX_match (lstrip t) = None ->
                  _validate_directive k (Some r)
                  = Err (RawFormatError_keyword_mismatch (directive_name k) [] r)).
Proof.
  split; [reflexivity|]. split; [|split].
  - intros r H. apply strip_nil in H. unfold _validate_directive.
    rewrite H. reflexivity.
  - intros r c t L Hc. unfold _validate_directive.
    assert (B : eqb (strip r) [] = false)
      by (apply eqb_neq; rewrite strip_nil_lstrip, L; discriminate).
    rewrite B. unfold _expect_directive, _expect_directive_kw, _strip_hash_prefix.
    rewrite L. simpl. apply N.eqb_neq in Hc. rewrite Hc. reflexivity.
  - intros r t L M.
    assert (K : _expect_directive_kw r = Ok []).
    { unfold _expect_directive_kw, _strip_hash_prefix. rewrite L. simpl.
      unfold slice_from_1. simpl. rewrite M. reflexivity. }
    assert (Hne : [] <> directive_name k) by (destruct k; discriminate).
    destruct (raw_check_mismatch _ K Hne) as [B E].
    unfold _validate_directive. rewrite B, E. reflexivity.
Qed.

Lemma _validate_directive_errors_witness :
  _validate_directive Kdefine (Some [0x20; 0x0A; 0x3000])
    = Err DirectiveRawEmptyError
  /\ _validate_directive Kdefine (Some (U " define X"))
     = Err (RawFormatError_missing_hash (U " define X"))
  /\ _validate_directive Kdefine (Some (U "# 1 define"))
     = Err (RawFormatError_keyword_mismatch (U "define") [] (U "# 1 define")).
Proof.
  assert (H : (0x64 : N) <> 0x23) by discriminate.
  split; [|split].
  - exact (proj1 (proj2 (_validate_directive_errors Kdefine))
             [0x20; 0x0A; 0x3000] eq_refl).
  - exact (proj1 (proj2 (proj2 (_validate_directive_errors Kdefine)))
             (U " define X") 0x64 (U "efine X") eq_refl H).
  - exact (proj2 (proj2 (proj2 (_validate_directive_errors Kdefine)))
             (U "# 1 define") (U " 1 define") eq_refl eq_refl).
Defined.

(** X5.  The checks of [ConditionalBranch] construction run in the order raw,
    condition, body, and the first failure is the result.  A null or blank
    raw fails whatever the other fields are; a raw that fails the keyword
    check fails with that error whatever condition and body are; with a
    good raw, a null condition or one that breaks the kind's rule fails
    even when the body is null too; [NullBodyError] is raised only when raw
    and condition are both good. *)
Theorem _validate_branch_check_order (k : BranchKind) :
  (forall c b, _validate_branch k c b None = Err BranchRawEmptyError)
  /\ (forall c b r, forallb isspace r = true ->
                    _validate_branch k c b (Some r) = Err BranchRawEmptyError)
  /\ (forall c b r e,
        forallb isspace r = false ->
        _expect_directive r (branch_name k) = Err e ->
        _validate_branch k c b (Some r) = Err e)
  /\ (forall b r,
        _expect_directive_kw r = Ok (branch_name k) ->
        _validate_branch k None b (Some r) = Err (EmptyConditionError k))
  /\ (forall c b r,
        _expect_directive_kw r = Ok (branch_name k) ->
        condition_rule k c = false ->
        _validate_branch k (Some c) b (Some r)
        = if eqb (strip c) [] then Err (EmptyConditionError k)
          else Err (InvalidIdentifierError k c))
  /\ (forall c r,
        _expect_directive_kw r = Ok (branch_name k) ->
        condition_rule k c = true ->
        _validate_branch k (Some c) None (Some r) = Err NullBodyError).
Proof.
  split; [reflexivity|]. split; [|split; [|split; [|split]]].
  - intros c b r H. apply strip_nil in H. unfold _validate_branch.
    rewrite H. reflexivity.
  - intros c b r e B H. unfold _validate_branch.
    assert (B' : eqb (strip r) [] = false).
    { apply eqb_neq. rewrite strip_nil. congruence. }
    rewrite B', H. reflexivity.
  - intros b r H. unfold _validate_branch.
    rewrite (_expect_directive_kw_not_blank _ H).
    apply _expect_directive_ok in H. rewrite H. destruct k; reflexivity.
  - intros c b r H R. unfold _validate_branch.
    rewrite (_expect_directive_kw_not_blank _ H).
    apply _expect_directive_ok in H. rewrite H. cbn [bind].
    unfold _require_identifier, _require_nonempty_condition.
    rewrite _C_IDENT_match_strip.
    destruct k; simpl in R; destruct (eqb (strip c) []); simpl;
      try reflexivity; try discriminate; rewrite R; reflexivity.
  - intros c r H R. unfold _validate_branch.
    rewrite (_expect_directive_kw_not_blank _ H).
    apply _expect_directive_ok in H. rewrite H. cbn [bind].
    apply condition_step_ok in R. rewrite R. reflexivity.
Qed.

Lemma _validate_branch_check_order_witness :
  _validate_branch Kifdef None None (Some (U "   ")) = Err BranchRawEmptyError
  /\ _validate_branch Kifdef None None (Some (U "#if X"))
     = Err (RawFormatError_keyword_mismatch (U "ifdef") (U "if") (U "#if X"))
  /\ _validate_branch Kifdef None None (Some (U "#ifdef X"))
     = Err (EmptyConditionError Kifdef)
  /\ _validate_branch Kifdef (Some (U "X Y")) None (Some (U "#ifdef X"))
     = Err (InvalidIdentifierError Kifdef (U "X Y"))
  /\ _validate_branch Kifdef (Some (U "X")) None (Some (U "#ifdef X"))
     = Err NullBodyError.
Proof.
  destruct (_validate_branch_check_order Kifdef) as (_ & A & B & C & D & E).
  split; [|split; [|split; [|split]]].
  - exact (A None None (U "   ") eq_refl).
  - exact (B None None (U "#if X") _ eq_refl eq_refl).
  - exact (C None (U "#ifdef X") eq_refl).
  - exact (D (U "X Y") None (U "#ifdef X") eq_refl eq_refl).
  - exact (E (U "X") (U "#ifdef X") eq_refl eq_refl).
Defined.

(** X6.  The identifier check of [ifdef]/[ifndef] conditions.  Whitespace around
    an identifier is ignored; a condition whose trimmed text contains a
    character outside [[A-Za-z0-9_]] (a space between two words, an
    operator) or starts with a digit is an [InvalidIdentifierError].  A
    branch keeps the condition as given, with its surrounding whitespace. *)
Theorem identifier_condition_whitespace (k : BranchKind) :
  (forall ws1 ws2 id,
     forallb isspace ws1 = true -> forallb isspace ws2 = true ->
     is_c_identifier id = true ->
     _require_identifier (Some (ws1 ++ id ++ ws2)) k = Ok tt)
  /\ (forall cond c,
        In c (strip cond) -> is_ident_char c = false ->
        _require_identifier (Some cond) k = Err (InvalidIdentifierError k cond))
  /\ (forall cond c t,
        strip cond = c :: t -> is_ident_start c = false ->
        _require_identifier (Some cond) k = Err (InvalidIdentifierError k cond))
  /\ (forall ws1 ws2 id b r,
        k = Kifdef \/ k = Kifndef ->
        forallb isspace ws1 = true -> forallb isspace ws2 = true ->
        is_c_identifier id = true ->
        _expect_directive_kw r = Ok (branch_name k) ->
        _validate_branch k (Some (ws1 ++ id ++ ws2)) (Some b) (Some r)
        = Ok (mkBranch k (ws1 ++ id ++ ws2) b r)).
Proof.
  assert (P : forall ws1 ws2 id,
     forallb isspace ws1 = true -> forallb isspace ws2 = true ->
     is_c_identifier id = true ->
     is_c_identifier (strip (ws1 ++ id ++ ws2)) = true).
  { intros ws1 ws2 id H1 H2 Hi.
    rewrite (strip_padded_ident _ _ _ H1 H2 (is_c_identifier_chars _ Hi)).
    exact Hi. }
  assert (Q : forall cond,
     strip cond <> [] -> is_c_identifier (strip cond) = false ->
     _require_identifier (Some cond) k = Err (InvalidIdentifierError k cond)).
  { intros cond Hne Hf. unfold _require_identifier, _require_nonempty_condition.
    rewrite _C_IDENT_match_strip, Hf. apply eqb_neq in Hne. rewrite Hne.
    reflexivity. }
  split; [|split; [|split]].
  - intros ws1 ws2 id H1 H2 Hi. apply _require_identifier_ok, P; assumption.
  - intros cond c Hin Hc. apply Q.
    + intros E. rewrite E in Hin. destruct Hin.
    + destruct (is_c_identifier (strip cond)) eqn:I; [|reflexivity].
      rewrite (is_c_identifier_all _ I c Hin) in Hc. discriminate.
  - intros cond c t E Hc. apply Q.
    + rewrite E. discriminate.
    + rewrite E. simpl. rewrite Hc. reflexivity.
  - intros ws1 ws2 id b r Hk H1 H2 Hi Hr. apply _validate_branch_ok.
    split; [exact Hr|].
    destruct Hk as [-> | ->]; simpl; apply P; assumption.
Qed.

Lemma identifier_condition_whitespace_witness :
  _require_identifier (Some (U "  FOO_1 ")) Kifdef = Ok tt
  /\ _require_identifier (Some (U "FOO BAR")) Kifdef
     = Err (InvalidIdentifierError Kifdef (U "FOO BAR"))
  /\ _require_identifier (Some (U " 9LIVES")) Kifdef
     = Err (InvalidIdentifierError Kifdef (U " 9LIVES"))
  /\ _validate_branch Kifdef (Some (U "  FOO_1 ")) (Some []) (Some (U "#ifdef FOO_1"))
     = Ok (mkBranch Kifdef (U "  FOO_1 ") [] (U "#ifdef FOO_1")).
Proof.
  destruct (identifier_condition_whitespace Kifdef) as (A & B & C & D).
  assert (Hin : In 0x20 (strip (U "FOO BAR")))
    by (do 3 right; left; reflexivity).
  split; [|split; [|split]].
  - exact (A (U "  ") (U " ") (U "FOO_1") eq_refl eq_refl eq_refl).
  - exact (B (U "FOO BAR") 0x20 Hin eq_refl).
  - exact (C (U " 9LIVES") 0x39 (U "LIVES") eq_refl eq_refl).
  - exact (D (U "  ") (U " ") (U "FOO_1") [] (U "#ifdef FOO_1")
             (or_introl eq_refl) eq_refl eq_refl eq_refl eq_refl).
Defined.

End ValidatorErrors.

Section GroupBehaviour.






Lemma elif_check_first (bs : list ConditionalBranch) i b : forall i0,
  nth_error bs i = Some b -> kind b <> Kelif ->
  (forall j b', (j < i)%nat -> nth_error bs j = Some b' -> kind b' = Kelif) ->
  for_each_enum
    (fun i b => if negb (is_elif (kind b))
                then Err (HeterogeneousElifError i (kind b))
                else Ok tt)
    i0 bs = Err (HeterogeneousElifError (i0 + i) (kind b)).
Proof.
  revert i. induction bs as [|x bs IH]; intros [|i] i0 Hn Hk Hj;
    simpl in Hn; try discriminate.
  - injection Hn as ->. simpl. rewrite Nat.add_0_r.
    destruct (kind b); try reflexivity. congruence.
  - simpl. rewrite (Hj 0%nat x) by first [lia | reflexivity]. simpl.
    rewrite Nat.add_succ_r. apply (IH i (S i0) Hn Hk).
    intros j b' Lt E. apply (Hj (S j) b'); [lia | exact E].
Qed.

(** X8.  The elif-kind check.  For a group with a legal entry kind, if [elifs]
    holds a branch whose kind is not [elif], construction fails with
    [HeterogeneousElifError] carrying the index and kind of the first such
    branch; the bodies are not walked before that, so the error is the same
    whatever they contain. *)
Theorem heterogeneous_elif_first_index (g : ConditionalGroup) bs i b :
  is_opening (kind (entry g)) = true ->
  elifs g = Some bs ->
  nth_error bs i = Some b -> kind b <> Kelif ->
  (forall j b', (j < i)%nat -> nth_error bs j = Some b' -> kind b' = Kelif) ->
  _validate_group g = Err (HeterogeneousElifError i (kind b)).
Proof.
  intros O E Hn Hk Hj. unfold _validate_group. rewrite O, E. cbn [negb].
  rewrite (elif_check_first bs 0%nat Hn Hk Hj). reflexivity.
Qed.

Lemma heterogeneous_elif_first_index_witness :
  let bad := mkBranch Kifdef (U "B") [DirectiveNode Kdefine (U "#else")]
               (U "#ifdef B") in
  let bs := [mkBranch Kelif (U "A") [] (U "#elif A"); bad;
             mkBranch Kif (U "C") [] (U "#if C")] in
  _validate_group
    (mkGroup (mkBranch Kif (U "X") [DirectiveNode Kdefine (U "#endif")] (U "#if X"))
       (Some bs) None None endif_raw_default)
  = Err (HeterogeneousElifError 1 Kifdef).
Proof.
  intros bad bs.
  assert (Hk : kind bad <> Kelif) by discriminate.
  assert (Hj : forall j b', (j < 1)%nat -> nth_error bs j = Some b' ->
                            kind b' = Kelif).
  { intros [|j] b' Lt E; [injection E as <-; reflexivity | lia]. }
  exact (@heterogeneous_elif_first_index
           (mkGroup (mkBranch Kif (U "X") [DirectiveNode Kdefine (U "#endif")]
                       (U "#if X"))
              (Some bs) None None endif_raw_default)
           bs 1%nat bad eq_refl eq_refl eq_refl Hk Hj).
Defined.

End GroupBehaviour.

Section GroupVerdict.









End GroupVerdict.


Section TwoExtractions.

Lemma take_while_refine (p q : N -> bool) (s : str) :
  (forall c, p c = true -> q c = true) ->
  take_while q s = take_while p s ++ take_while q (drop_while p s).
Proof.
  intros H. induction s as [|c t IH]; simpl; [reflexivity|].
  destruct (p c) eqn:P.
  - rewrite (H c P). simpl. rewrite IH. reflexivity.
  - reflexivity.
Qed.

(** X12.  How the keyword of [_walk] relates to the keyword of
    [_expect_directive].  The two fail together, with the same missing-hash
    error.  When they succeed, the identifier run that [_expect_directive]
    extracts is a prefix of the field that [_walk] extracts; when that run
    is not empty, what [_walk] reads beyond it starts with a character that
    is neither whitespace nor an identifier character.  So the two keywords
    are equal whenever the run is followed by whitespace or by the end of
    the raw, and the walk flags a conditional keyword only if
    [_expect_directive] extracts that same keyword. *)
Theorem walk_keyword_extends_expect_keyword (raw : str) :
  (forall e, _expect_directive_kw raw = Err e <-> _walk_kw raw = Err e)
  /\ (forall a,
        _expect_directive_kw raw = Ok a ->
        exists b,
          _walk_kw raw = Ok (a ++ b)
          /\ forallb (fun c => negb (isspace c)) b = true
          /\ (a <> [] -> stops_identifier b = true))
  /\ (forall w,
        _walk_kw raw = Ok w -> In w conditional_keywords ->
        _expect_directive_kw raw = Ok w).
Proof.
  split; [|split].
  - intros e. destruct (_strip_hash_prefix raw) as [s0|e'] eqn:S.
    + rewrite (_walk_kw_eq _ S). unfold _expect_directive_kw. rewrite S.
      simpl. split; discriminate.
    + unfold _expect_directive_kw, _walk_kw. rewrite S. simpl. tauto.
  - intros a H. unfold _expect_directive_kw in H.
    apply bind_ok in H as (s0 & S & H). rewrite (_walk_kw_eq _ S).
    set (s := lstrip (slice_from_1 s0)) in *.
    destruct s as [|c u] eqn:Es.
    + simpl in H. injection H as <-. exists []. auto.
    + pose proof (lstrip_head _ Es) as Hc.
      simpl in H. simpl. rewrite Hc. simpl.
      destruct (is_ident_start c) eqn:I; injection H as <-.
      * exists (take_while (fun c => negb (isspace c)) (drop_while is_ident_char u)).
        split; [|split].
        -- simpl. do 2 f_equal. apply take_while_refine.
           intros x Hx. rewrite (ident_char_not_space _ Hx). reflexivity.
        -- apply take_while_all.
        -- intros _. unfold stops_identifier.
           destruct (drop_while is_ident_char u) as [|x d] eqn:D; [reflexivity|].
           simpl. destruct (negb (isspace x)); [|reflexivity].
           apply drop_while_head in D. rewrite D. reflexivity.
      * exists (c :: take_while (fun c => negb (isspace c)) u).
        split; [reflexivity|]. split.
        -- simpl. rewrite Hc. simpl. apply take_while_all.
        -- intros X. congruence.
  - intros w W K. exact (_walk_kw_keyword_is_expect_kw _ W K).
Qed.

Lemma walk_keyword_extends_expect_keyword_witness :
  _walk_kw (U "endif") = Err (RawFormatError_missing_hash (U "endif"))
  /\ (exists b,
        _walk_kw (U "# include<a.h> x") = Ok (U "include" ++ b)
        /\ forallb (fun c => negb (isspace c)) b = true
        /\ (U "include" <> [] -> stops_identifier b = true))
  /\ _expect_directive_kw (U " #endif /* X */") = Ok (U "endif").
Proof.
  assert (K : In (U "endif") conditional_keywords)
    by (do 5 right; left; reflexivity).
  split; [|split].
  - exact (proj1 (proj1 (walk_keyword_extends_expect_keyword (U "endif"))
                    (RawFormatError_missing_hash (U "endif"))) eq_refl).
  - exact (proj1 (proj2 (walk_keyword_extends_expect_keyword (U "# include<a.h> x")))
             (U "include") eq_refl).
  - exact (proj2 (proj2 (walk_keyword_extends_expect_keyword (U " #endif /* X */")))
             (U "endif") eq_refl K).
Defined.

End TwoExtractions.
